(** * cherab.solps.formats.balance: loading a SOLPS simulation from balance.nc

    A shallow embedding of [load_solps_from_balance]
    (src/cherab/solps/formats/balance.py) and the properties its
    specification states about it.

    Conventions of the embedding.
    - Python exceptions are values of [exn]; a computation that may raise
      has type [result A] and is sequenced with stdpp's monadic notation.
    - A numpy array is its shape together with its indexing function
      ([ndarray]); cell values are exact rationals, so rounding, infinities
      and NaN are outside the model (division by a zero volume yields 0).
    - A Python local that an execution path may leave unassigned is an
      [option]; reading it while unassigned raises [UnboundLocalError].
    - The collaborators that are imported by the module ([SOLPSMesh],
      the inside/outside mapper, the element symbols of cherab.core) are
      parameters of the development. *)

From Stdlib Require Import ZArith QArith Qabs String Ascii List Lia DecimalString.
From stdpp Require Import base option list gmap strings.

Local Open Scope string_scope.
Local Open Scope list_scope.
Local Open Scope nat_scope.

(** ** Exceptions and the error monad *)

Inductive dict_key :=
| KName (name : string)
| KSpecies (zn : Z) (am : Q).

Inductive exn :=
| KeyError (k : dict_key)
| IndexError
| ValueError
| TypeError
| AxisError
| UnboundLocalError (name : string)
| RuntimeError (msg : string)
| FileNotFoundError
| IsADirectoryError
| CollaboratorError (msg : string).

Inductive result (A : Type) :=
| Ok (a : A)
| Err (e : exn).
Arguments Ok {A} a.
Arguments Err {A} e.

#[global] Instance result_ret : MRet result := fun A a => Ok a.
#[global] Instance result_bind : MBind result := fun A B f m =>
  match m with
  | Ok a => f a
  | Err e => Err e
  end.

#[global] Instance result_fmap : FMap result := fun A B f m =>
  match m with
  | Ok a => Ok (f a)
  | Err e => Err e
  end.

Definition is_Ok {A} (r : result A) : Prop := exists a, r = Ok a.

(** Reading a local variable that may not have been assigned. *)
Definition load_local {A} (name : string) (v : option A) : result A :=
  match v with
  | Some a => Ok a
  | None => Err (UnboundLocalError name)
  end.

(** ** numpy arrays *)

Record ndarray := NDArray {
  shape : list nat;
  item : list nat -> Q
}.

Definition ndim (a : ndarray) : nat := length (shape a).

(** [idx] addresses a cell of an array of shape [sh]. *)
Definition in_bounds (idx sh : list nat) : Prop := Forall2 lt idx sh.

(** Exchange the entries at positions [i] and [j]. *)
Definition swap_entries {A} (i j : nat) (l : list A) : list A :=
  match l !! i, l !! j with
  | Some x, Some y => <[j := x]> (<[i := y]> l)
  | _, _ => l
  end.

(** [numpy.swapaxes(a, axis1, axis2)]: a view with the two axes exchanged. *)
Definition swapaxes (a : ndarray) (axis1 axis2 : nat) : result ndarray :=
  if (axis1 <? ndim a) && (axis2 <? ndim a)
  then Ok {| shape := swap_entries axis1 axis2 (shape a);
             item := fun idx => item a (swap_entries axis1 axis2 idx) |}
  else Err AxisError.

(** Lines 69-72 and 116-117: the re-arrangement applied to [crx], [cry]
    and [na]. *)
Definition rearrange (a : ndarray) : result ndarray :=
  a ← swapaxes a 0 2;
  swapaxes a 0 1.

(** The permutation that undoes [rearrange]: the same two swaps in the
    opposite order. *)
Definition rearrange_inv (a : ndarray) : result ndarray :=
  a ← swapaxes a 0 1;
  swapaxes a 0 2.

(** The permutation as the specification words it: the leading axis moved
    to the trailing position and the other two reversed, taking shape
    (C, P, R) to (R, P, C). *)
Definition spec_rearrange (a : ndarray) : result ndarray :=
  match shape a with
  | [c; p; r] => Ok {| shape := [r; p; c];
                       item := fun idx => match idx with
                                          | [i; j; k] => item a [k; j; i]
                                          | _ => item a idx
                                          end |}
  | _ => Err AxisError
  end.

(** [numpy.moveaxis(a, 0, -1)] on a 3-dimensional array: the leading axis
    moved to the trailing position, the other two kept in order. *)
Definition moveaxis_0_last (a : ndarray) : result ndarray :=
  match shape a with
  | [c; p; r] => Ok {| shape := [p; r; c];
                       item := fun idx => match idx with
                                          | [i; j; k] => item a [k; i; j]
                                          | _ => item a idx
                                          end |}
  | _ => Err AxisError
  end.

(** *** Broadcasting and element-wise arithmetic *)

(** numpy's broadcasting rule on shapes read from the trailing axis. *)
Fixpoint broadcast_rev (r1 r2 : list nat) : option (list nat) :=
  match r1, r2 with
  | [], r => Some r
  | r, [] => Some r
  | d1 :: t1, d2 :: t2 =>
      d ← (if d1 =? d2 then Some d1
           else if d1 =? 1 then Some d2
           else if d2 =? 1 then Some d1
           else None);
      t ← broadcast_rev t1 t2;
      Some (d :: t)
  end.

Definition broadcast_shapes (s1 s2 : list nat) : option (list nat) :=
  reverse <$> broadcast_rev (reverse s1) (reverse s2).

(** The cell of an operand of shape [sh] that the cell [idx] of the
    broadcast result reads: leading axes are dropped, axes of length 1
    are read at 0. *)
Definition broadcast_index (sh idx : list nat) : list nat :=
  zip_with (fun d i => if d =? 1 then 0 else i) sh
           (drop (length idx - length sh) idx).

Definition elementwise (f : Q -> Q -> Q) (a b : ndarray) : result ndarray :=
  match broadcast_shapes (shape a) (shape b) with
  | Some sh =>
      Ok {| shape := sh;
            item := fun idx => f (item a (broadcast_index (shape a) idx))
                                 (item b (broadcast_index (shape b) idx)) |}
  | None => Err ValueError
  end.

Definition np_add : ndarray -> ndarray -> result ndarray := elementwise Qplus.
Definition np_sub : ndarray -> ndarray -> result ndarray := elementwise Qminus.
Definition np_div : ndarray -> ndarray -> result ndarray := elementwise Qdiv.

Definition np_map (f : Q -> Q) (a : ndarray) : ndarray :=
  {| shape := shape a; item := fun idx => f (item a idx) |}.

(** [c * a], [a * c] and [a / c] for a Python float [c]. *)
Definition scalar_times (c : Q) (a : ndarray) : ndarray := np_map (Qmult c) a.
Definition times_scalar (a : ndarray) (c : Q) : ndarray := np_map (fun x => Qmult x c) a.
Definition div_scalar (a : ndarray) (c : Q) : ndarray := np_map (fun x => Qdiv x c) a.

(** [numpy.abs]. *)
Definition np_abs (a : ndarray) : ndarray := np_map Qabs a.

(** [numpy.sum(a, axis=0)]. *)
Definition np_sum0 (a : ndarray) : result ndarray :=
  match shape a with
  | n :: rest =>
      Ok {| shape := rest;
            item := fun idx =>
              foldl Qplus 0%Q (map (fun k => item a (k :: idx)) (seq 0 n)) |}
  | [] => Err AxisError
  end.

(** *** Indexing *)

(** [len(a)]. *)
Definition np_len (a : ndarray) : result nat :=
  match shape a with
  | n :: _ => Ok n
  | [] => Err TypeError
  end.

(** [a[i]] converted by [float(...)] or [int(...)]: the entry must hold a
    single element. *)
Definition scalar_at (a : ndarray) (i : nat) : result Q :=
  match shape a with
  | n :: rest =>
      if i <? n then
        if forallb (Nat.eqb 1) rest
        then Ok (item a (i :: map (fun _ => 0) rest))
        else Err TypeError
      else Err IndexError
  | [] => Err IndexError
  end.

(** [a[1,:,:]]. *)
Definition getitem_1_all_all (a : ndarray) : result ndarray :=
  match shape a with
  | n0 :: n1 :: n2 :: rest =>
      if 1 <? n0
      then Ok {| shape := n1 :: n2 :: rest; item := fun idx => item a (1 :: idx) |}
      else Err IndexError
  | _ => Err IndexError
  end.

(** [a[0,:,0:-2]]: the first slab, without the last two columns. *)
Definition getitem_0_all_upto_m2 (a : ndarray) : result ndarray :=
  match shape a with
  | n0 :: n1 :: n2 :: rest =>
      if 0 <? n0
      then Ok {| shape := n1 :: (n2 - 2) :: rest; item := fun idx => item a (0 :: idx) |}
      else Err IndexError
  | _ => Err IndexError
  end.

(** Whether a value of shape [src] can be assigned to a target of shape
    [dst]: after its surplus leading axes of length 1 are dropped, every
    axis of [src] has the length of the target's or length 1. *)
Fixpoint strip_leading_ones (surplus : nat) (sh : list nat) : list nat :=
  match surplus, sh with
  | S n, 1 :: t => strip_leading_ones n t
  | _, _ => sh
  end.

Definition assignable (src dst : list nat) : bool :=
  let src := strip_leading_ones (length src - length dst) src in
  (length src <=? length dst) &&
  forallb (fun '(d, t) => (d =? t) || (d =? 1)) (zip (reverse src) (reverse dst)).

(** [a[:,:,k] = v]. *)
Definition setitem_all_all_k (a : ndarray) (k : nat) (v : ndarray) : result ndarray :=
  match shape a with
  | n0 :: n1 :: n2 :: rest =>
      if k <? n2 then
        if assignable (shape v) (n0 :: n1 :: rest) then
          let src := strip_leading_ones (ndim v - length (n0 :: n1 :: rest)) (shape v) in
          Ok {| shape := shape a;
                item := fun idx =>
                  if bool_decide (idx !! 2 = Some k)
                  then item v (replicate (ndim v - length src) 0 ++
                               broadcast_index src (take 2 idx ++ drop 3 idx))
                  else item a idx |}
        else Err ValueError
      else Err IndexError
  | _ => Err IndexError
  end.

(** ** The file and its variables *)

(** A netCDF file as [scipy.io.netcdf] presents it: the numeric variables
    by name, and the character variable [species], one row per species. *)
Record netcdf_file := NetCDF {
  variables : gmap string ndarray;
  species_rows : option (list string)
}.

(** [fhandle.variables[name].data]. *)
Definition variable (fhandle : netcdf_file) (name : string) : result ndarray :=
  match variables fhandle !! name with
  | Some a => Ok a
  | None => Err (KeyError (KName name))
  end.

(** [fhandle.variables['species'].data[i,j] == c]. *)
Definition species_char_is (fhandle : netcdf_file) (i j : nat) (c : ascii) : result bool :=
  match species_rows fhandle with
  | None => Err (KeyError (KName "species"))
  | Some rows =>
      match rows !! i with
      | None => Err IndexError
      | Some row =>
          match String.get j row with
          | None => Err IndexError
          | Some x => Ok (Ascii.eqb x c)
          end
      end
  end.

(** ** Species *)

(** The elements imported from cherab.core.atomic.elements (line 27). *)
Inductive Element :=
| hydrogen | deuterium | helium | beryllium | carbon | nitrogen
| oxygen | neon | argon | krypton | xenon.

(** Line 34. (Named [Q] in the source.) *)
Definition Q_elementary : Q := 1.602e-19%Q.

(** Lines 37-47: key is nuclear charge Z and atomic mass AMU. *)
Definition _popular_species : list ((Z * Q) * Element) :=
  [ ((1%Z, 2%Q), deuterium);
    ((6%Z, 12.0%Q), carbon);
    ((2%Z, 4.003%Q), helium);
    ((7%Z, 14.0%Q), nitrogen);
    ((10%Z, 20.180%Q), neon);
    ((18%Z, 39.948%Q), argon);
    ((18%Z, 40.0%Q), argon);
    ((36%Z, 83.798%Q), krypton);
    ((54%Z, 131.293%Q), xenon) ].

(** Python's [==] on the keys: numbers are compared by value. *)
Definition key_eqb (k1 k2 : Z * Q) : bool :=
  (k1.1 =? k2.1)%Z && Qeq_bool k1.2 k2.2.

Fixpoint dict_get {V} (d : list ((Z * Q) * V)) (k : Z * Q) : option V :=
  match d with
  | [] => None
  | (k', v) :: d' => if key_eqb k' k then Some v else dict_get d' k
  end.

Definition dict_getitem {V} (d : list ((Z * Q) * V)) (k : Z * Q) : result V :=
  match dict_get d k with
  | Some v => Ok v
  | None => Err (KeyError (KSpecies k.1 k.2))
  end.

(** [int(x)]: truncation towards zero. *)
Definition py_int (x : Q) : Z := Z.quot (Qnum x) (Z.pos (Qden x)).

(** [str(n)] for an integer. *)
Definition py_str (n : Z) : string := NilZero.string_of_int (Z.to_int n).

(** [for i in indices: body], threading the locals the body assigns. *)
Fixpoint for_each {S} (body : nat -> S -> result S) (indices : list nat) (s : S) : result S :=
  match indices with
  | [] => Ok s
  | i :: rest => s' ← body i s; for_each body rest s'
  end.

(** Lines 97-106: the nuclear charge rules. [zn] is the local as the
    previous iterations left it; a rule that fires assigns it, and a
    record on which no rule fires leaves it as it was. The conjunctions
    of lines 103 and 105 read the third character only when the second
    one matched. *)
Definition nuclear_charge (fhandle : netcdf_file) (i : nat) (zn : option Z) : result (option Z) :=
  b ← species_char_is fhandle i 1 "D";
  let zn := if b : bool then Some 1%Z else zn in
  b ← species_char_is fhandle i 1 "C";
  let zn := if b : bool then Some 6%Z else zn in
  b ← species_char_is fhandle i 1 "N";
  let zn := if b : bool then Some 7%Z else zn in
  b1 ← species_char_is fhandle i 1 "N";
  b ← (if b1 : bool then species_char_is fhandle i 2 "e" else mret false);
  let zn := if b : bool then Some 10%Z else zn in
  b1 ← species_char_is fhandle i 1 "A";
  b ← (if b1 : bool then species_char_is fhandle i 2 "r" else mret false);
  let zn := if b : bool then Some 18%Z else zn in
  mret zn.

(** Lines 126-129: the index of the deuterium neutrals; the loop keeps
    the last index at which the label is found. *)
Definition find_D0 (species_list : list string) : option nat :=
  if bool_decide ("D0" ∈ species_list) then
    foldl (fun D0_indx i =>
             if bool_decide (species_list !! i = Some "D0") then Some i else D0_indx)
          None (seq 0 (length species_list))
  else None.

(** Lines 133-137: the density of the deuterium neutrals is replaced by
    EIRENE's when the file has [dab2]; the second component is
    [eirene_run]. The right-hand side of line 134 is evaluated before the
    subscript [D0_indx] of its target. *)
Definition replace_neutral_density (fhandle : netcdf_file) (D0_indx : option nat)
    (species_density : ndarray) : result (ndarray * bool) :=
  match variables fhandle !! "dab2" with
  | Some dab2 =>
      rhs ← getitem_0_all_upto_m2 dab2;
      k ← load_local "D0_indx" D0_indx;
      species_density ← setitem_all_all_k species_density k rhs;
      mret (species_density, true)
  | None => mret (species_density, false)
  end.

(** Lines 143-155: the radiated power when EIRENE was run. *)
Definition total_rad_eirene (fhandle : netcdf_file) (vol : ndarray) : result ndarray :=
  she ← variable fhandle "b2stel_she_bal";
  b2_ploss ← np_div she vol;
  eirene_ecoolrate ←
    match variables fhandle !! "eirene_mc_eael_she_bal" with
    | Some eael => s ← np_sum0 eael; r ← np_div s vol; mret (Some r)
    | None => mret None
    end;
  eirene_potential_loss ←
    match variables fhandle !! "eirene_mc_papl_sna_bal" with
    | Some papl =>
        s ← np_sum0 papl;
        c ← getitem_1_all_all s;
        r ← np_div (times_scalar (scalar_times 13.6%Q c) Q_elementary) vol;
        mret (Some r)
    | None => mret None
    end;
  ecool ← load_local "eirene_ecoolrate" eirene_ecoolrate;
  ploss ← load_local "eirene_potential_loss" eirene_potential_loss;
  d ← np_sub ecool ploss;
  s ← np_add b2_ploss d;
  mret (np_abs s).

(** Lines 163-169: the radiated power from B2 alone. *)
Definition total_rad_b2 (fhandle : netcdf_file) (vol : ndarray) : result ndarray :=
  she ← variable fhandle "b2stel_she_bal";
  s ← np_sum0 she;
  b2_ploss ← np_div s vol;
  sna ← variable fhandle "b2stel_sna_ion_bal";
  s ← np_sum0 sna;
  potential_loss ← np_div s vol;
  d ← np_sub (scalar_times (13.6 * Q_elementary)%Q potential_loss) b2_ploss;
  mret (np_abs d).

(** Lines 142-169. *)
Definition total_radiated_power (eirene_run : bool) (fhandle : netcdf_file)
    (vol : ndarray) : result ndarray :=
  if eirene_run then total_rad_eirene fhandle vol else total_rad_b2 fhandle vol.

(** ** The file system and the handle *)

Inductive fs_node :=
| Directory
| RegularFile (content : option netcdf_file).

Inductive syscall :=
| SysIsDir (path : string)
| SysOpen (path : string)
| SysClose (path : string).

(** What a call can observe of the outside: the calls made so far and the
    handles that are open. *)
Record world := World {
  trace : list syscall;
  open_handles : list string
}.

Definition initial_world : world := {| trace := []; open_handles := [] |}.

Definition IO (A : Type) : Type := world -> world * result A.

#[global] Instance IO_ret : MRet IO := fun A a w => (w, Ok a).
#[global] Instance IO_bind : MBind IO := fun A B f m w =>
  match m w with
  | (w', Ok a) => f a w'
  | (w', Err e) => (w', Err e)
  end.

Definition lift {A} (r : result A) : IO A := fun w => (w, r).

(** An expression statement: the value is computed and dropped. *)
Definition expression_statement {A} (v : A) : IO unit := mret ().

Definition called (c : syscall) (w : world) : world :=
  {| trace := trace w ++ [c]; open_handles := open_handles w |}.

(** [os.path.isdir]. *)
Definition os_path_isdir (fs : gmap string fs_node) (path : string) : IO bool :=
  fun w => (called (SysIsDir path) w,
            Ok match fs !! path with Some Directory => true | _ => false end).

(** [netcdf.netcdf_file(path, 'r')]: the file is opened and its header
    parsed; the handle exists once the constructor has returned. *)
Definition netcdf_file_open (fs : gmap string fs_node) (path : string) : IO netcdf_file :=
  fun w =>
    let w := called (SysOpen path) w in
    match fs !! path with
    | None => (w, Err FileNotFoundError)
    | Some Directory => (w, Err IsADirectoryError)
    | Some (RegularFile None) => (w, Err TypeError)
    | Some (RegularFile (Some f)) =>
        ({| trace := trace w; open_handles := path :: open_handles w |}, Ok f)
    end.

(** [fhandle.close()]: the handle most recently opened at [path] is
    released. *)
Fixpoint release (path : string) (handles : list string) : list string :=
  match handles with
  | [] => []
  | h :: rest => if bool_decide (h = path) then rest else h :: release path rest
  end.

Definition netcdf_file_close (path : string) : IO unit :=
  fun w =>
    ({| trace := trace w ++ [SysClose path];
        open_handles := release path (open_handles w) |}, Ok ()).

(** ** The loader *)

Section Loader.

(** [SOLPSMesh] of cherab.solps.mesh_geometry and the inside/outside
    mapper built from it at lines 121-122 (raysect's [Discrete2DMesh]
    wrapped in cherab's [AxisymmetricMapper]). *)
Variable Mesh : Type.
Variable SOLPSMesh : ndarray -> ndarray -> ndarray -> result Mesh.
Variable InsideMesh : Type.
Variable inside_outside : Mesh -> result InsideMesh.

(** The [symbol] attribute of cherab.core's elements. *)
Variable symbol : Element -> string.

(** The fields of [SOLPSSimulation] the loader assigns; its properties
    [species_list] and [species_density] read the underscored
    attributes. *)
Record SOLPSSimulation := Simulation {
  mesh : Mesh;
  _electron_temperature : ndarray;
  _electron_density : ndarray;
  _species_list : list string;
  _species_density : ndarray;
  _inside_mesh : InsideMesh;
  _total_rad : ndarray
}.

(** Lines 94-113: one iteration of the species loop. The locals that
    survive an iteration are [zn] and the list being built. *)
Definition decode_species (fhandle : netcdf_file) (i : nat)
    (st : option Z * list string) : result (option Z * list string) :=
  zn ← nuclear_charge fhandle i st.1;
  am_var ← variable fhandle "am";
  am ← scalar_at am_var i;
  za_var ← variable fhandle "za";
  za ← scalar_at za_var i;
  let charge := py_int za in
  z ← load_local "zn" zn;
  species ← dict_getitem _popular_species (z, am);
  mret (zn, st.2 ++ [symbol species +:+ py_str charge]).

(** Lines 91-113. *)
Definition load_species (fhandle : netcdf_file) : result (list string) :=
  am_var ← variable fhandle "am";
  n_species ← np_len am_var;
  st ← for_each (decode_species fhandle) (seq 0 n_species) (None, []);
  mret st.2.

(** What lines 64-123 have loaded when the neutrals are reached. *)
Record plasma := Plasma {
  pl_mesh : Mesh;
  pl_vol : ndarray;
  pl_electron_temperature : ndarray;
  pl_electron_density : ndarray;
  pl_species_list : list string;
  pl_species_density : ndarray;
  pl_inside_mesh : InsideMesh
}.

(** Lines 64-123. *)
Definition load_plasma (fhandle : netcdf_file) : result plasma :=
  cr_x ← variable fhandle "crx";
  cr_z ← variable fhandle "cry";
  vol ← variable fhandle "vol";
  cr_x ← swapaxes cr_x 0 2;
  cr_x ← swapaxes cr_x 0 1;
  cr_z ← swapaxes cr_z 0 2;
  cr_z ← swapaxes cr_z 0 1;
  mesh ← SOLPSMesh cr_x cr_z vol;
  te ← variable fhandle "te";
  ne ← variable fhandle "ne";
  species_list ← load_species fhandle;
  tmp ← variable fhandle "na";
  tmp ← swapaxes tmp 0 2;
  tmp ← swapaxes tmp 0 1;
  inside ← inside_outside mesh;
  mret {| pl_mesh := mesh;
          pl_vol := vol;
          pl_electron_temperature := div_scalar te Q_elementary;
          pl_electron_density := ne;
          pl_species_list := species_list;
          pl_species_density := tmp;
          pl_inside_mesh := inside |}.

(** Lines 64-169: everything between opening the file and closing it. *)
Definition load_from_handle (fhandle : netcdf_file) : result SOLPSSimulation :=
  p ← load_plasma fhandle;
  let D0_indx := find_D0 (pl_species_list p) in
  '(species_density, eirene_run) ←
    replace_neutral_density fhandle D0_indx (pl_species_density p);
  total_rad ← total_radiated_power eirene_run fhandle (pl_vol p);
  mret {| mesh := pl_mesh p;
          _electron_temperature := pl_electron_temperature p;
          _electron_density := pl_electron_density p;
          _species_list := pl_species_list p;
          _species_density := species_density;
          _inside_mesh := pl_inside_mesh p;
          _total_rad := total_rad |}.

(** The two paths through lines 126-169, each written out on its own:
    the load with the fluid-only formula and the density as loaded, *)
Definition load_b2_only (fhandle : netcdf_file) : result SOLPSSimulation :=
  p ← load_plasma fhandle;
  total_rad ← total_rad_b2 fhandle (pl_vol p);
  mret {| mesh := pl_mesh p;
          _electron_temperature := pl_electron_temperature p;
          _electron_density := pl_electron_density p;
          _species_list := pl_species_list p;
          _species_density := pl_species_density p;
          _inside_mesh := pl_inside_mesh p;
          _total_rad := total_rad |}.

(** and the load with the density of the neutrals replaced and the
    coupled formula. *)
Definition load_with_eirene (fhandle : netcdf_file) : result SOLPSSimulation :=
  p ← load_plasma fhandle;
  sd ← replace_neutral_density fhandle (find_D0 (pl_species_list p))
         (pl_species_density p);
  total_rad ← total_rad_eirene fhandle (pl_vol p);
  mret {| mesh := pl_mesh p;
          _electron_temperature := pl_electron_temperature p;
          _electron_density := pl_electron_density p;
          _species_list := pl_species_list p;
          _species_density := sd.1;
          _inside_mesh := pl_inside_mesh p;
          _total_rad := total_rad |}.

(** Lines 51-173. Line 58 builds a [RuntimeError] and drops it: there
    is no [raise]. *)
Definition load_solps_from_balance (fs : gmap string fs_node)
    (balance_filename : string) (debug : bool) : IO SOLPSSimulation :=
  d ← os_path_isdir fs balance_filename;
  _ ← (if negb d
       then expression_statement (RuntimeError "file name must be valid")
       else mret ());
  fhandle ← netcdf_file_open fs balance_filename;
  sim ← lift (load_from_handle fhandle);
  _ ← netcdf_file_close balance_filename;
  mret sim.

End Loader.

(** ** The mesh loader and the names of the module *)

(** The names the module binds: its imports (lines 20-32), its constants
    (lines 34 and 37) and its two functions (lines 51 and 176). *)
Definition module_globals : list string :=
  [ "os"; "copy"; "abs"; "sum"; "swapaxes"; "ones"; "arange"; "netcdf";
    "Discrete2DMesh"; "AxisymmetricMapper";
    "hydrogen"; "deuterium"; "helium"; "beryllium"; "carbon"; "nitrogen";
    "oxygen"; "neon"; "argon"; "krypton"; "xenon";
    "Eirene"; "SOLPSMesh"; "SOLPSSimulation";
    "Q"; "_popular_species"; "load_solps_from_balance"; "load_mesh_from_files" ].

(** What a call of a function of the module can raise: the [NameError] of
    a global name that nothing binds, or an exception of the body. *)
Inductive module_exn :=
| NameError (name : string)
| Raised (e : exn).

(** Reading a global name at the time of the call. *)
Definition load_global (name : string) : option module_exn :=
  if bool_decide (name ∈ module_globals) then None else Some (NameError name).

(** [d[key]] on a dictionary of arrays. *)
Definition dict_item (d : gmap string ndarray) (key : string) : result ndarray :=
  match d !! key with
  | Some a => Ok a
  | None => Err (KeyError (KName key))
  end.

Section MeshFromFiles.

Variable Mesh : Type.
Variable SOLPSMesh : ndarray -> ndarray -> ndarray -> result Mesh.

(** What the name [load_b2f_file] would do if the module bound it: a
    parser returning the header, the fields and the geometry of a B2 file. *)
Variable B2Header B2Fields : Type.
Variable load_b2f_file :
  string -> bool -> result (B2Header * B2Fields * gmap string ndarray).

(** Lines 176-192. The call of line 185 first reads the global name
    [load_b2f_file]; [SOLPSMesh], read at line 192, is bound by line 31. *)
Definition load_mesh_from_files (mesh_file_path : string) (debug : bool) :
    module_exn + Mesh :=
  match load_global "load_b2f_file" with
  | Some e => inl e
  | None =>
      match
        (r ← load_b2f_file mesh_file_path debug;
         let geom_data_dict := r.2 in
         cr_x ← dict_item geom_data_dict "crx";
         cr_z ← dict_item geom_data_dict "cry";
         vol ← dict_item geom_data_dict "vol";
         SOLPSMesh cr_x cr_z vol)
      with
      | Ok m => inr m
      | Err e => inl (Raised e)
      end
  end.

End MeshFromFiles.

(** The sum that [numpy.sum(a, axis=0)] holds at the cell [idx]. *)
Definition axis0_sum (a : ndarray) (idx : list nat) : Q :=
  foldl Qplus 0%Q (map (fun k => item a (k :: idx)) (seq 0 (default 0 (head (shape a))))).

(** ** Reference collaborators and sample files *)

(** The symbols cherab.core gives the elements. *)
Definition cherab_symbol (e : Element) : string :=
  match e with
  | hydrogen => "H" | deuterium => "D" | helium => "He" | beryllium => "Be"
  | carbon => "C" | nitrogen => "N" | oxygen => "O" | neon => "Ne"
  | argon => "Ar" | krypton => "Kr" | xenon => "Xe"
  end.

(** Modelled from the spec: the Mesh Builder (cherab.solps.mesh_geometry is
    not among the sources). It takes the re-arranged corner coordinates and
    the cell volumes, fails when the corner axis does not have length 4 or
    the volume does not have the shape of the two cell axes, and otherwise
    yields a mesh with one cell per volume entry and two triangles per
    cell. *)
Record quad_mesh := QuadMesh {
  cells_axis0 : nat;
  cells_axis1 : nat;
  num_tris : nat
}.

Definition spec_SOLPSMesh (cr_x cr_z vol : ndarray) : result quad_mesh :=
  match shape cr_x with
  | [n0; n1; corners] =>
      if (corners =? 4) && bool_decide (shape cr_z = shape cr_x)
         && bool_decide (shape vol = [n0; n1])
      then Ok {| cells_axis0 := n0; cells_axis1 := n1; num_tris := 2 * (n0 * n1) |}
      else Err (CollaboratorError "MeshConstructionError")
  | _ => Err (CollaboratorError "MeshConstructionError")
  end.

(** Modelled from the spec: the inside/outside indicator, kept as the
    uniform value 1 it assigns to every triangle. *)
Definition spec_inside_outside (m : quad_mesh) : result (list Q) :=
  Ok (replicate (num_tris m) 1%Q).

(** Row-major position of a cell. *)
Definition ravel (sh idx : list nat) : nat :=
  foldl (fun acc '(n, i) => acc * n + i) 0 (zip sh idx).

(** The array of shape [sh] holding [start], [start + 1], ... in row-major
    order. *)
Definition ramp (sh : list nat) (start : Z) : ndarray :=
  {| shape := sh; item := fun idx => inject_Z (start + Z.of_nat (ravel sh idx)) |}.

Definition full (sh : list nat) (v : Q) : ndarray :=
  {| shape := sh; item := fun _ => v |}.

(** A file of a coupled B2-EIRENE run on a grid of 2 x 3 cells with the
    species D0 and D+1. *)
Definition sample_variables : gmap string ndarray :=
  list_to_map
    [ ("crx", ramp [4; 2; 3] 0);
      ("cry", ramp [4; 2; 3] 10);
      ("vol", full [2; 3] 2%Q);
      ("te", ramp [2; 3] 1);
      ("ne", ramp [2; 3] 1);
      ("am", full [2] 2%Q);
      ("za", ramp [2] 0);
      ("na", ramp [2; 2; 3] 0);
      ("b2stel_she_bal", ramp [2; 2; 3] (-5));
      ("b2stel_sna_ion_bal", ramp [2; 2; 3] (-3));
      ("dab2", ramp [1; 2; 5] 100);
      ("eirene_mc_eael_she_bal", ramp [1; 2; 3] (-4));
      ("eirene_mc_papl_sna_bal", ramp [1; 2; 2; 3] (-7)) ].

Definition sample_file : netcdf_file :=
  {| variables := sample_variables; species_rows := Some [" D0"; " D+1"] |}.

(** The file without one of its variables. *)
Definition without (name : string) (f : netcdf_file) : netcdf_file :=
  {| variables := delete name (variables f); species_rows := species_rows f |}.

(** The loader on the reference collaborators. *)
Definition sample_load_from_handle (f : netcdf_file) :
    result (SOLPSSimulation quad_mesh (list Q)) :=
  load_from_handle quad_mesh spec_SOLPSMesh (list Q) spec_inside_outside cherab_symbol f.

Definition sample_load (fs : gmap string fs_node) (path : string) :
    IO (SOLPSSimulation quad_mesh (list Q)) :=
  load_solps_from_balance quad_mesh spec_SOLPSMesh (list Q) spec_inside_outside
    cherab_symbol fs path false.

(** The sample file with other variables or species rows. *)
Definition with_variable (name : string) (a : ndarray) (f : netcdf_file) : netcdf_file :=
  {| variables := <[name := a]> (variables f); species_rows := species_rows f |}.

Definition with_species (rows : list string) (f : netcdf_file) : netcdf_file :=
  {| variables := variables f; species_rows := Some rows |}.

(** Two records, the second with a code no rule matches. *)
Definition sample_unmatched_second : netcdf_file :=
  with_species [" D0"; " X+1"] sample_file.

(** Two records, the first with a code no rule matches. *)
Definition sample_unmatched_first : netcdf_file :=
  with_species [" X0"; " D+1"] sample_file.


(** A single record, the deuterium ion: no neutrals are tracked. *)
Definition sample_ions_only : netcdf_file :=
  with_species [" D+1"]
    (with_variable "am" (full [1] 2%Q)
       (with_variable "za" (full [1] 1%Q)
          (with_variable "na" (ramp [1; 2; 3] 0) sample_file))).

(** Two records of charge 1 and mass 3, which the catalog does not have. *)
Definition sample_unknown_mass : netcdf_file :=
  with_variable "am" (full [2] 3%Q) sample_file.

Definition sample_fs (f : netcdf_file) : gmap string fs_node :=
  {[ "run/balance.nc" := RegularFile (Some f) ]}.

(** * Properties *)

(** ** The re-arrangement of the axes *)

Lemma in_bounds_3 (idx : list nat) (n0 n1 n2 : nat) :
  in_bounds idx [n0; n1; n2] →
  ∃ i j k, idx = [i; j; k] ∧ i < n0 ∧ j < n1 ∧ k < n2.
Proof.
  intros H. unfold in_bounds in H.
  inversion H as [| i ? t0 ? Hi H0]; subst.
  inversion H0 as [| j ? t1 ? Hj H1]; subst.
  inversion H1 as [| k ? t2 ? Hk H2]; subst.
  inversion H2; subst. by exists i, j, k.
Qed.

(** C5, as the code has it: on an array of shape (C, P, R) the two swaps
    succeed and give an array of shape (P, R, C) whose cell (p, r, c) is
    the cell (c, p, r) of the argument; this is the leading axis moved to
    the trailing position with the other two axes kept in their order; and
    the two swaps in the opposite order give back the shape and every
    element of the argument. *)
Theorem rearrange_moves_leading_axis_last (a : ndarray) (C P R : nat) :
  shape a = [C; P; R] →
  ∃ b, rearrange a = Ok b
     ∧ shape b = [P; R; C]
     ∧ (∀ p r c, item b [p; r; c] = item a [c; p; r])
     ∧ (∃ m, moveaxis_0_last a = Ok m ∧ shape m = shape b
             ∧ ∀ idx, in_bounds idx (shape b) → item m idx = item b idx)
     ∧ (∃ a', rearrange_inv b = Ok a' ∧ shape a' = shape a
              ∧ ∀ idx, in_bounds idx (shape a) → item a' idx = item a idx).
Proof.
  destruct a as [sh f]; simpl. intros ->.
  eexists. split; [reflexivity |]. simpl.
  split; [reflexivity |]. split; [reflexivity |]. split.
  - unfold moveaxis_0_last; simpl. eexists. split; [reflexivity |].
    split; [reflexivity |]. simpl. intros idx Hidx.
    apply in_bounds_3 in Hidx as (i & j & k & -> & _). reflexivity.
  - eexists. split; [reflexivity |]. split; [reflexivity |]. simpl.
    intros idx Hidx.
    apply in_bounds_3 in Hidx as (i & j & k & -> & _). reflexivity.
Qed.

Lemma rearrange_moves_leading_axis_last_witness :
  shape (ramp [4; 2; 3] 0) = [4; 2; 3] ∧
  ∃ b, rearrange (ramp [4; 2; 3] 0) = Ok b
     ∧ shape b = [2; 3; 4]
     ∧ (∀ p r c, item b [p; r; c] = item (ramp [4; 2; 3] 0) [c; p; r])
     ∧ (∃ m, moveaxis_0_last (ramp [4; 2; 3] 0) = Ok m ∧ shape m = shape b
             ∧ ∀ idx, in_bounds idx (shape b) → item m idx = item b idx)
     ∧ (∃ a', rearrange_inv b = Ok a' ∧ shape a' = shape (ramp [4; 2; 3] 0)
              ∧ ∀ idx, in_bounds idx (shape (ramp [4; 2; 3] 0)) →
                       item a' idx = item (ramp [4; 2; 3] 0) idx).
Proof.
  split; [reflexivity |].
  apply (rearrange_moves_leading_axis_last (ramp [4; 2; 3] 0) 4 2 3).
  reflexivity.
Defined.

(** C5, as the specification states it, fails on an array of shape
    (1, 2, 3): the two swaps give shape (2, 3, 1), not the reversed shape
    (3, 2, 1) that the specification's wording describes. *)
Lemma rearrange_shape_not_reversed :
  shape (ramp [1; 2; 3] 0) = [1; 2; 3]
  ∧ shape <$> rearrange (ramp [1; 2; 3] 0) = Ok [2; 3; 1]
  ∧ shape <$> spec_rearrange (ramp [1; 2; 3] 0) = Ok [3; 2; 1]
  ∧ ¬ ∃ b, rearrange (ramp [1; 2; 3] 0) = Ok b ∧ shape b = [3; 2; 1].
Proof.
  split; [reflexivity |]. split; [reflexivity |]. split; [reflexivity |].
  intros (b & Hb & Hs). cbv in Hb. injection Hb as <-. discriminate Hs.
Qed.

(** ** Inversion of the error monad *)

Lemma result_bind_Ok {A B} (m : result A) (f : A → result B) (b : B) :
  m ≫= f = Ok b → ∃ a, m = Ok a ∧ f a = Ok b.
Proof. destruct m as [a | e]; [eauto | discriminate]. Qed.

Lemma result_bind_Err {A B} (m : result A) (f : A → result B) (e : exn) :
  m = Err e → m ≫= f = Err e.
Proof. by intros ->. Qed.

(** Split a hypothesis [x ← m; k = Ok r] into [m = Ok x] and [k = Ok r]. *)
Ltac inv_bind H :=
  let x := fresh "x" in
  let Hx := fresh "H" x in
  apply result_bind_Ok in H as (x & Hx & H).

(** ** The radiated power is an absolute value *)

Lemma np_abs_nonneg (s : ndarray) (idx : list nat) : (0 <= item (np_abs s) idx)%Q.
Proof. apply Qabs_nonneg. Qed.

Lemma total_rad_eirene_abs (fhandle : netcdf_file) (vol r : ndarray) :
  total_rad_eirene fhandle vol = Ok r →
  ∃ b2_ploss ecool ploss d s,
    np_sub ecool ploss = Ok d ∧ np_add b2_ploss d = Ok s ∧ r = np_abs s.
Proof.
  unfold total_rad_eirene. intros H.
  inv_bind H. inv_bind H. inv_bind H. inv_bind H. inv_bind H. inv_bind H.
  inv_bind H. inv_bind H. injection H as <-. eauto 10.
Qed.

Lemma total_rad_b2_abs (fhandle : netcdf_file) (vol r : ndarray) :
  total_rad_b2 fhandle vol = Ok r →
  ∃ potential_loss b2_ploss d,
    np_sub (scalar_times (13.6 * Q_elementary)%Q potential_loss) b2_ploss = Ok d
    ∧ r = np_abs d.
Proof.
  unfold total_rad_b2. intros H.
  inv_bind H. inv_bind H. inv_bind H. inv_bind H. inv_bind H. inv_bind H.
  inv_bind H. injection H as <-. eauto 10.
Qed.

Lemma total_radiated_power_abs (eirene_run : bool) (fhandle : netcdf_file)
    (vol r : ndarray) :
  total_radiated_power eirene_run fhandle vol = Ok r → ∃ s, r = np_abs s.
Proof.
  destruct eirene_run; simpl; intros H.
  - apply total_rad_eirene_abs in H as (? & ? & ? & ? & s & _ & _ & ->). eauto.
  - apply total_rad_b2_abs in H as (? & ? & s & _ & ->). eauto.
Qed.



(** ** The loader and the outside world *)

Section LoaderProperties.

Context (Mesh : Type) (SOLPSMesh : ndarray → ndarray → ndarray → result Mesh).
Context (InsideMesh : Type) (inside_outside : Mesh → result InsideMesh).
Context (symbol : Element → string).

Local Abbreviation load_handle :=
  (load_from_handle Mesh SOLPSMesh InsideMesh inside_outside symbol).
Local Abbreviation load :=
  (load_solps_from_balance Mesh SOLPSMesh InsideMesh inside_outside symbol).

Lemma release_head (path : string) (handles : list string) :
  release path (path :: handles) = handles.
Proof. simpl. by rewrite bool_decide_eq_true_2. Qed.

(** The loader, call by call. *)
Lemma load_unfold (fs : gmap string fs_node) (path : string) (debug : bool) (w : world) :
  load fs path debug w =
  let w1 := called (SysOpen path) (called (SysIsDir path) w) in
  match fs !! path with
  | None => (w1, Err FileNotFoundError)
  | Some Directory => (w1, Err IsADirectoryError)
  | Some (RegularFile None) => (w1, Err TypeError)
  | Some (RegularFile (Some f)) =>
      match load_handle f with
      | Ok sim => ({| trace := trace w1 ++ [SysClose path];
                      open_handles := open_handles w |}, Ok sim)
      | Err e => ({| trace := trace w1;
                     open_handles := path :: open_handles w |}, Err e)
      end
  end.
Proof.
  unfold load_solps_from_balance, mbind, IO_bind, os_path_isdir,
    netcdf_file_open, netcdf_file_close, lift, expression_statement,
    mret, IO_ret.
  destruct (fs !! path) as [[| [f |]] |] eqn:Hp; simpl; try reflexivity.
  destruct (load_handle f) as [sim | e]; simpl; [| reflexivity].
  by rewrite bool_decide_eq_true_2.
Qed.

(** C2, what the code does on a path that does not exist: the check of
    line 57 raises nothing, the reader is called on the path, and the
    error that ends the load is the reader's. *)
Theorem missing_path_reaches_open (fs : gmap string fs_node) (path : string)
    (debug : bool) (w : world) :
  fs !! path = None →
  load fs path debug w =
    ({| trace := (trace w ++ [SysIsDir path]) ++ [SysOpen path];
        open_handles := open_handles w |}, Err FileNotFoundError).
Proof. intros Hp. rewrite load_unfold, Hp. reflexivity. Qed.



End LoaderProperties.

Lemma missing_path_reaches_open_witness :
  sample_fs sample_file !! "missing.nc" = None
  ∧ sample_load (sample_fs sample_file) "missing.nc" initial_world =
      ({| trace := [SysIsDir "missing.nc"; SysOpen "missing.nc"];
          open_handles := [] |}, Err FileNotFoundError).
Proof.
  split; [reflexivity |].
  apply (missing_path_reaches_open quad_mesh spec_SOLPSMesh (list Q)
           spec_inside_outside cherab_symbol (sample_fs sample_file)
           "missing.nc" false initial_world).
  reflexivity.
Defined.




(** ** Species records that no rule matches *)

(** A record whose second character is none of D, C, N, A assigns no
    nuclear charge: [zn] keeps what the previous iterations left in it. *)
Lemma nuclear_charge_unmatched (fhandle : netcdf_file) (i : nat) (zn : option Z) :
  species_char_is fhandle i 1 "D" = Ok false →
  species_char_is fhandle i 1 "C" = Ok false →
  species_char_is fhandle i 1 "N" = Ok false →
  species_char_is fhandle i 1 "A" = Ok false →
  nuclear_charge fhandle i zn = Ok zn.
Proof.
  intros HD HC HN HA. unfold nuclear_charge.
  rewrite HD; simpl. rewrite HC; simpl. rewrite HN; simpl. rewrite HA; simpl.
  reflexivity.
Qed.

(** C3, what the code does on a code that no rule matches. As the second
    record of a file it is given the nuclear charge of the record before
    it and is labelled as a deuterium ion; only as the first record does
    it end the load, by the read of the unassigned local [zn]. *)
Theorem unmatched_code_reuses_previous_charge :
  nuclear_charge sample_unmatched_second 1 (Some 1%Z) = Ok (Some 1%Z)
  ∧ load_species cherab_symbol sample_unmatched_second = Ok ["D0"; "D1"]
  ∧ _species_list _ _ <$> sample_load_from_handle sample_unmatched_second
    = Ok ["D0"; "D1"]
  ∧ load_species cherab_symbol sample_unmatched_first = Err (UnboundLocalError "zn").
Proof. repeat split; vm_compute; reflexivity. Qed.

(** ** The neutrals *)

(** C7, what the code does when no species is labelled D0 and the file
    has [dab2]: line 134 reads the unassigned local [D0_indx] and the load
    ends with an error; without [dab2] the same file loads. *)
Theorem no_neutrals_with_dab2_raises :
  load_species cherab_symbol sample_ions_only = Ok ["D1"]
  ∧ find_D0 ["D1"] = None
  ∧ is_Some (variables sample_ions_only !! "dab2")
  ∧ sample_load_from_handle sample_ions_only = Err (UnboundLocalError "D0_indx")
  ∧ _species_list _ _ <$> sample_load_from_handle (without "dab2" sample_ions_only)
    = Ok ["D1"].
Proof.
  split; [vm_compute; reflexivity |]. split; [vm_compute; reflexivity |].
  split; [vm_compute; eauto |]. split; vm_compute; reflexivity.
Qed.


Lemma find_D0_last (species_list : list string) (i : nat) :
  species_list !! i = Some "D0" →
  (∀ j, i < j → species_list !! j ≠ Some "D0") →
  find_D0 species_list = Some i.
Proof.
  intros Hi Hlast. unfold find_D0.
  rewrite bool_decide_eq_true_2 by (by eapply list_elem_of_lookup_2).
  assert (Hgen : ∀ n, i < n →
            foldl (λ D0_indx j,
                     if bool_decide (species_list !! j = Some "D0")
                     then Some j else D0_indx) None (seq 0 n) = Some i).
  { induction n as [| n IH]; [lia |]. intros Hn.
    rewrite seq_S, foldl_app. simpl.
    destruct (decide (n = i)) as [-> | Hne].
    - by rewrite bool_decide_eq_true_2.
    - rewrite bool_decide_eq_false_2 by (apply Hlast; lia). apply IH. lia. }
  apply Hgen. by eapply lookup_lt_Some.
Qed.

Lemma find_D0_absent (species_list : list string) :
  "D0" ∉ species_list → find_D0 species_list = None.
Proof. intros H. unfold find_D0. by rewrite bool_decide_eq_false_2. Qed.

Lemma broadcast_index_in_bounds (sh idx : list nat) :
  in_bounds idx sh → broadcast_index sh idx = idx.
Proof.
  intros H. unfold broadcast_index.
  rewrite (Forall2_length _ _ _ H), Nat.sub_diag, drop_0.
  induction H as [| i d idx sh Hlt _ IH]; [done |].
  simpl zip_with. rewrite IH.
  destruct (Nat.eqb_spec d 1); [f_equal; lia | done].
Qed.


(** Without [dab2] nothing is replaced and [eirene_run] is false. *)
Lemma replace_neutral_density_absent (fhandle : netcdf_file) (D0_indx : option nat)
    (species_density : ndarray) :
  variables fhandle !! "dab2" = None →
  replace_neutral_density fhandle D0_indx species_density = Ok (species_density, false).
Proof. intros H. unfold replace_neutral_density. by rewrite H. Qed.

(** With [dab2] and no index of the neutrals, line 134 raises once its
    right-hand side has been evaluated. *)
Lemma replace_neutral_density_unbound (fhandle : netcdf_file) (species_density dab2 rhs : ndarray) :
  variables fhandle !! "dab2" = Some dab2 →
  getitem_0_all_upto_m2 dab2 = Ok rhs →
  replace_neutral_density fhandle None species_density = Err (UnboundLocalError "D0_indx").
Proof. intros H Hr. unfold replace_neutral_density. by rewrite H, Hr. Qed.



(** ** The species catalog *)

Lemma for_each_app {S} (body : nat → S → result S) (l1 l2 : list nat) (s : S) :
  for_each body (l1 ++ l2) s = s' ← for_each body l1 s; for_each body l2 s'.
Proof.
  revert s. induction l1 as [| i l1 IH]; intros s; simpl; [done |].
  destruct (body i s) as [s' | e]; simpl; [apply IH | done].
Qed.

Lemma for_each_ext {S} (body1 body2 : nat → S → result S) (l : list nat) (s : S) :
  (∀ i s, body1 i s = body2 i s) → for_each body1 l s = for_each body2 l s.
Proof.
  intros Hext. revert s. induction l as [| i l IH]; intros s; simpl; [done |].
  rewrite Hext. destruct (body2 i s); simpl; [apply IH | done].
Qed.

Lemma seq_split_at (i n : nat) :
  i < n → seq 0 n = seq 0 i ++ i :: seq (S i) (n - S i).
Proof.
  intros Hi. replace n with (i + S (n - S i)) at 1 by lia.
  by rewrite seq_app.
Qed.

Section SpeciesProperties.

Context (Mesh : Type) (SOLPSMesh : ndarray → ndarray → ndarray → result Mesh).
Context (InsideMesh : Type) (inside_outside : Mesh → result InsideMesh).
Context (symbol : Element → string).

Local Abbreviation load_plasma' :=
  (load_plasma Mesh SOLPSMesh InsideMesh inside_outside symbol).
Local Abbreviation load_handle :=
  (load_from_handle Mesh SOLPSMesh InsideMesh inside_outside symbol).
Local Abbreviation load :=
  (load_solps_from_balance Mesh SOLPSMesh InsideMesh inside_outside symbol).

(** An error in the species loop ends everything around it. *)
Lemma load_species_Err_aborts (fhandle : netcdf_file) (e : exn) :
  load_species symbol fhandle = Err e →
  (∃ e', load_handle fhandle = Err e')
  ∧ ∀ fs path debug w, fs !! path = Some (RegularFile (Some fhandle)) →
      ∃ w' e', load fs path debug w = (w', Err e').
Proof.
  intros Hsp.
  assert (Hp : ∃ e', load_plasma' fhandle = Err e').
  { unfold load_plasma.
    repeat match goal with
           | |- ∃ e', (load_species _ _ ≫= _) = Err e' => rewrite Hsp; simpl; eauto
           | |- ∃ e', (?m ≫= _) = Err e' => destruct m; simpl; [| eauto]
           end. }
  destruct Hp as [e' Hp].
  assert (Hh : load_handle fhandle = Err e').
  { unfold load_from_handle. by rewrite Hp. }
  split; [eauto |].
  intros fs path debug w Hpath. rewrite load_unfold, Hpath, Hh. simpl. eauto.
Qed.

(** C4: a record whose nuclear charge [z] the rules have inferred and
    whose mass and ionisation read as [am] and [za]. When ([z], [am]) is a
    key of the catalog, the record is labelled with the symbol of the
    element under that key followed by the decimal rendering of the
    ionisation state; when it is not, decoding the record raises the
    [KeyError] of the lookup, and the species loop that reaches the record,
    the load around it and the call all end with an error. *)
Theorem decode_species_catalog (fhandle : netcdf_file) (i : nat) (zn : option Z)
    (labels : list string) (z : Z) (am_var za_var : ndarray) (am za : Q) :
  nuclear_charge fhandle i zn = Ok (Some z) →
  variable fhandle "am" = Ok am_var →
  scalar_at am_var i = Ok am →
  variable fhandle "za" = Ok za_var →
  scalar_at za_var i = Ok za →
  (∀ species, dict_get _popular_species (z, am) = Some species →
     decode_species symbol fhandle i (zn, labels)
     = Ok (Some z, labels ++ [symbol species +:+ py_str (py_int za)]))
  ∧ (dict_get _popular_species (z, am) = None →
     decode_species symbol fhandle i (zn, labels) = Err (KeyError (KSpecies z am))
     ∧ ∀ n, np_len am_var = Ok n → i < n →
         for_each (decode_species symbol fhandle) (seq 0 i) (None, []) = Ok (zn, labels) →
         load_species symbol fhandle = Err (KeyError (KSpecies z am))
         ∧ (∃ e, load_handle fhandle = Err e)
         ∧ ∀ fs path debug w, fs !! path = Some (RegularFile (Some fhandle)) →
             ∃ w' e, load fs path debug w = (w', Err e)).
Proof.
  intros Hzn Hamv Ham Hzav Hza.
  assert (Hdec : decode_species symbol fhandle i (zn, labels) =
                 species ← dict_getitem _popular_species (z, am);
                 mret (Some z, labels ++ [symbol species +:+ py_str (py_int za)])).
  { unfold decode_species. simpl. rewrite Hzn. simpl.
    rewrite Hamv. simpl. rewrite Ham. simpl.
    rewrite Hzav. simpl. rewrite Hza. reflexivity. }
  rewrite Hdec. unfold dict_getitem. split.
  - by intros species ->.
  - intros Hmiss. rewrite Hmiss. simpl. split; [done |].
    intros n Hn Hi Hbefore.
    assert (Hsp : load_species symbol fhandle = Err (KeyError (KSpecies z am))).
    { unfold load_species. rewrite Hamv. simpl. rewrite Hn. simpl.
      rewrite (seq_split_at i n Hi), for_each_app, Hbefore. simpl.
      rewrite Hdec. unfold dict_getitem. by rewrite Hmiss. }
    split; [done |]. by apply load_species_Err_aborts in Hsp.
Qed.

End SpeciesProperties.

Lemma decode_species_catalog_witness :
  ((∀ species, dict_get _popular_species (1%Z, 2%Q) = Some species →
      decode_species cherab_symbol sample_file 1 (Some 1%Z, ["D0"])
      = Ok (Some 1%Z, ["D0"; cherab_symbol species +:+ py_str (py_int 1%Q)]))
   ∧ dict_get _popular_species (1%Z, 2%Q) = Some deuterium
   ∧ cherab_symbol deuterium +:+ py_str (py_int 1%Q) = "D1")
  ∧ (dict_get _popular_species (1%Z, 3%Q) = None
     ∧ decode_species cherab_symbol sample_unknown_mass 0 (None, [])
       = Err (KeyError (KSpecies 1 3))
     ∧ load_species cherab_symbol sample_unknown_mass = Err (KeyError (KSpecies 1 3))).
Proof.
  split.
  - split; [| split; reflexivity].
    apply (decode_species_catalog quad_mesh spec_SOLPSMesh (list Q) spec_inside_outside
             cherab_symbol sample_file 1 (Some 1%Z) ["D0"] 1%Z (full [2] 2%Q)
             (ramp [2] 0) 2%Q 1%Q); vm_compute; reflexivity.
  - split; [reflexivity |].
    destruct (decode_species_catalog quad_mesh spec_SOLPSMesh (list Q)
                spec_inside_outside cherab_symbol sample_unknown_mass 0 None []
                1%Z (full [2] 3%Q) (ramp [2] 0) 3%Q 0%Q) as [_ Hmiss];
      [vm_compute; reflexivity .. |].
    destruct (Hmiss eq_refl) as [Hdec Hload]. split; [exact Hdec |].
    destruct (Hload 2) as [Hsp _]; [reflexivity | lia | reflexivity | exact Hsp].
Defined.

(** Every entry of the catalog is found under its own key. *)
Lemma popular_species_keys (k : Z * Q) (species : Element) :
  In (k, species) _popular_species → dict_get _popular_species k = Some species.
Proof.
  simpl. intros H.
  repeat (destruct H as [[= <- <-] | H]; [reflexivity |]). destruct H.
Qed.

(** ** The two branches of the radiated power *)

Lemma variable_without_ne (name k : string) (f : netcdf_file) :
  k ≠ name → variable (without k f) name = variable f name.
Proof. intros Hne. unfold variable, without. simpl. by rewrite lookup_delete_ne. Qed.

Lemma total_rad_b2_without_dab2 (f : netcdf_file) (vol : ndarray) :
  total_rad_b2 (without "dab2" f) vol = total_rad_b2 f vol.
Proof. unfold total_rad_b2. by rewrite !variable_without_ne. Qed.

Section RadiatedPowerProperties.

Context (Mesh : Type) (SOLPSMesh : ndarray → ndarray → ndarray → result Mesh).
Context (InsideMesh : Type) (inside_outside : Mesh → result InsideMesh).
Context (symbol : Element → string).

Local Abbreviation load_plasma' :=
  (load_plasma Mesh SOLPSMesh InsideMesh inside_outside symbol).
Local Abbreviation load_handle :=
  (load_from_handle Mesh SOLPSMesh InsideMesh inside_outside symbol).
Local Abbreviation load_b2_only :=
  (load_b2_only Mesh SOLPSMesh InsideMesh inside_outside symbol).
Local Abbreviation load_with_eirene :=
  (load_with_eirene Mesh SOLPSMesh InsideMesh inside_outside symbol).

Lemma load_species_without_dab2 (f : netcdf_file) :
  load_species symbol (without "dab2" f) = load_species symbol f.
Proof.
  unfold load_species. rewrite variable_without_ne by done.
  destruct (variable f "am") as [am_var |]; simpl; [| done].
  destruct (np_len am_var) as [n |]; simpl; [| done].
  erewrite for_each_ext; [reflexivity |].
  intros i st. unfold decode_species.
  change (nuclear_charge (without "dab2" f) i st.1) with (nuclear_charge f i st.1).
  by rewrite !variable_without_ne.
Qed.

Lemma load_plasma_without_dab2 (f : netcdf_file) :
  load_plasma' (without "dab2" f) = load_plasma' f.
Proof.
  unfold load_plasma.
  by rewrite load_species_without_dab2, !variable_without_ne.
Qed.

(** C1, as the code has it: the branch is selected by [dab2], the density
    of the neutrals from EIRENE. Every replacement that completes sets
    [eirene_run] to whether the file has [dab2]; a file that has it is
    loaded with the coupled formula and one that lacks it with the
    fluid-only formula, so exactly one of the two runs; and a file from
    which [dab2] is removed is loaded with the fluid-only formula on the
    fields it had, completing exactly when they load and that formula
    completes. *)
Theorem radiated_power_branch_by_dab2 (fhandle : netcdf_file) :
  (∀ D0_indx sd sd' eirene_run,
     replace_neutral_density fhandle D0_indx sd = Ok (sd', eirene_run) →
     eirene_run = bool_decide (is_Some (variables fhandle !! "dab2"))
     ∧ ∀ vol, total_radiated_power eirene_run fhandle vol =
              if bool_decide (is_Some (variables fhandle !! "dab2"))
              then total_rad_eirene fhandle vol
              else total_rad_b2 fhandle vol)
  ∧ (is_Some (variables fhandle !! "dab2") →
     load_handle fhandle = load_with_eirene fhandle)
  ∧ (variables fhandle !! "dab2" = None →
     load_handle fhandle = load_b2_only fhandle)
  ∧ load_handle (without "dab2" fhandle) = load_b2_only fhandle.
Proof.
  assert (Habsent : ∀ f, variables f !! "dab2" = None →
                         load_handle f = load_b2_only f).
  { intros f Hnone. unfold load_from_handle, load_b2_only.
    destruct (load_plasma' f) as [p |]; simpl; [| done].
    by rewrite replace_neutral_density_absent. }
  split; [| split; [| split]].
  - intros D0_indx sd sd' eirene_run. unfold replace_neutral_density.
    destruct (variables fhandle !! "dab2") as [dab2 |] eqn:Hdab2.
    + intros H. inv_bind H. inv_bind H. inv_bind H. injection H as _ <-.
      rewrite bool_decide_eq_true_2 by eauto. done.
    + intros [= _ <-]. rewrite bool_decide_eq_false_2; [done |].
      by intros [? ?].
  - intros [dab2 Hdab2]. unfold load_from_handle, load_with_eirene.
    destruct (load_plasma' fhandle) as [p |]; simpl; [| done].
    unfold replace_neutral_density. rewrite Hdab2.
    destruct (getitem_0_all_upto_m2 dab2) as [rhs |]; simpl; [| done].
    destruct (load_local "D0_indx" _) as [k |]; simpl; [| done].
    by destruct (setitem_all_all_k _ k rhs).
  - apply Habsent.
  - rewrite Habsent by (simpl; apply lookup_delete_eq).
    unfold load_b2_only.
    rewrite load_plasma_without_dab2.
    destruct (load_plasma' fhandle) as [p |]; simpl; [| done].
    by rewrite total_rad_b2_without_dab2.
Qed.

End RadiatedPowerProperties.

Lemma radiated_power_branch_by_dab2_witness :
  is_Some (variables sample_file !! "dab2")
  ∧ sample_load_from_handle sample_file =
    load_with_eirene quad_mesh spec_SOLPSMesh (list Q) spec_inside_outside
      cherab_symbol sample_file
  ∧ sample_load_from_handle (without "dab2" sample_file) =
    load_b2_only quad_mesh spec_SOLPSMesh (list Q) spec_inside_outside
      cherab_symbol sample_file
  ∧ is_Ok (load_b2_only quad_mesh spec_SOLPSMesh (list Q) spec_inside_outside
             cherab_symbol sample_file).
Proof.
  destruct (radiated_power_branch_by_dab2 quad_mesh spec_SOLPSMesh (list Q)
              spec_inside_outside cherab_symbol sample_file)
    as (_ & Hpresent & _ & Hremoved).
  assert (Hdab2 : is_Some (variables sample_file !! "dab2"))
    by (vm_compute; eauto).
  split; [exact Hdab2 |]. split; [exact (Hpresent Hdab2) |].
  split; [exact Hremoved |]. vm_compute. eexists. reflexivity.
Defined.

(** C1, as the specification states it, fails on the sample file, which
    has all the fields of a coupled run and loads: with the energy field
    of EIRENE removed and nothing else, the load still takes the coupled
    branch and ends at line 155 with the read of the unassigned local
    [eirene_ecoolrate], although the fluid-only formula completes on the
    same fields. *)
Lemma removing_energy_field_keeps_coupled_branch :
  is_Ok (sample_load_from_handle sample_file)
  ∧ is_Some (variables sample_file !! "dab2")
  ∧ is_Some (variables sample_file !! "eirene_mc_eael_she_bal")
  ∧ is_Some (variables sample_file !! "eirene_mc_papl_sna_bal")
  ∧ sample_load_from_handle (without "eirene_mc_eael_she_bal" sample_file)
    = Err (UnboundLocalError "eirene_ecoolrate")
  ∧ snd <$> replace_neutral_density (without "eirene_mc_eael_she_bal" sample_file)
              (find_D0 ["D0"; "D1"]) (ramp [2; 3; 2] 0) = Ok true
  ∧ is_Ok (total_rad_b2 (without "eirene_mc_eael_she_bal" sample_file) (full [2; 3] 2%Q)).
Proof.
  repeat split; try (vm_compute; reflexivity);
    vm_compute; eexists; reflexivity.
Qed.

(** ** The pieces inside the load *)

Section LoadedFields.

Context (Mesh : Type) (SOLPSMesh : ndarray → ndarray → ndarray → result Mesh).
Context (InsideMesh : Type) (inside_outside : Mesh → result InsideMesh).
Context (symbol : Element → string).

Local Abbreviation load_plasma' :=
  (load_plasma Mesh SOLPSMesh InsideMesh inside_outside symbol).
Local Abbreviation load_handle :=
  (load_from_handle Mesh SOLPSMesh InsideMesh inside_outside symbol).


(** The radiated power of a loaded simulation has no negative element. *)
Lemma load_total_rad_nonneg (fhandle : netcdf_file) (sim : SOLPSSimulation Mesh InsideMesh) :
  load_handle fhandle = Ok sim → ∀ idx, (0 <= item (_total_rad _ _ sim) idx)%Q.
Proof.
  unfold load_from_handle. intros H.
  inv_bind H. inv_bind H. destruct x0 as [sd eirene_run].
  inv_bind H. injection H as <-. simpl.
  match goal with Ht : total_radiated_power _ _ _ = Ok _ |- _ =>
    apply total_radiated_power_abs in Ht as [s ->] end.
  apply np_abs_nonneg.
Qed.

End LoadedFields.

(** ** The loader on the sample files *)

Example sample_file_loads :
  _species_list _ _ <$> sample_load_from_handle sample_file = Ok ["D0"; "D1"]
  ∧ (λ s, shape (_species_density _ _ s)) <$> sample_load_from_handle sample_file
    = Ok [2; 3; 2]
  ∧ (λ s, item (_species_density _ _ s) [1; 2; 0]) <$> sample_load_from_handle sample_file
    = Ok 107%Q
  ∧ (λ s, shape (_total_rad _ _ s)) <$> sample_load_from_handle sample_file
    = Ok [2; 2; 3].
Proof. repeat split; vm_compute; reflexivity. Qed.

Example sample_file_without_dab2_loads :
  (λ s, shape (_total_rad _ _ s)) <$> sample_load_from_handle (without "dab2" sample_file)
  = Ok [2; 3]
  ∧ (λ s, item (_species_density _ _ s) [1; 2; 0]) <$>
      sample_load_from_handle (without "dab2" sample_file) = Ok 5%Q.
Proof. repeat split; vm_compute; reflexivity. Qed.

Example sample_unknown_mass_raises :
  decode_species cherab_symbol sample_unknown_mass 0 (None, [])
  = Err (KeyError (KSpecies 1 3)).
Proof. vm_compute. reflexivity. Qed.

Example sample_directory_is_not_rejected :
  sample_load {[ "run" := Directory ]} "run" initial_world =
    ({| trace := [SysIsDir "run"; SysOpen "run"]; open_handles := [] |},
     Err IsADirectoryError).
Proof. vm_compute. reflexivity. Qed.

(** * Further properties of the module *)

(** ** The mesh loader *)

(** X1: the module never binds the name [load_b2f_file] that line 185
    calls, so [load_mesh_from_files] raises [NameError] on every path and
    flag, whatever a parser of that name would return and whatever
    [SOLPSMesh] does: it builds no mesh. *)
Theorem load_mesh_from_files_raises_NameError (Mesh : Type)
    (SOLPSMesh : ndarray → ndarray → ndarray → result Mesh)
    (B2Header B2Fields : Type)
    (load_b2f_file : string → bool → result (B2Header * B2Fields * gmap string ndarray))
    (mesh_file_path : string) (debug : bool) :
  load_mesh_from_files Mesh SOLPSMesh B2Header B2Fields load_b2f_file
    mesh_file_path debug = inl (NameError "load_b2f_file")
  ∧ ("load_b2f_file" ∉ module_globals)
  ∧ ("SOLPSMesh" ∈ module_globals).
Proof.
  assert (Hunbound : "load_b2f_file" ∉ module_globals)
    by (apply (bool_decide_unpack _); vm_compute; exact I).
  split; [| split].
  - unfold load_mesh_from_files, load_global.
    by rewrite bool_decide_eq_false_2.
  - exact Hunbound.
  - apply (bool_decide_unpack _). vm_compute. exact I.
Qed.

(** ** The rules of the nuclear charge *)

Lemma species_char_is_at (f : netcdf_file) (rows : list string) (row : string)
    (i j : nat) (x : ascii) :
  species_rows f = Some rows → rows !! i = Some row → String.get j row = Some x →
  ∀ c, species_char_is f i j c = Ok (Ascii.eqb x c).
Proof. intros Hf Hi Hj c. unfold species_char_is. by rewrite Hf, Hi, Hj. Qed.

Lemma species_char_is_short (f : netcdf_file) (rows : list string) (row : string)
    (i j : nat) :
  species_rows f = Some rows → rows !! i = Some row → String.get j row = None →
  ∀ c, species_char_is f i j c = Err IndexError.
Proof. intros Hf Hi Hj c. unfold species_char_is. by rewrite Hf, Hi, Hj. Qed.

(** Close the cases of a comparison of characters that cannot occur. *)
Ltac ascii_cases :=
  repeat match goal with
         | H : Ascii.eqb _ _ = true |- _ => apply Ascii.eqb_eq in H
         end;
  try reflexivity; try congruence.

(** X2: the five rules of lines 97-106 as one table. On a record whose
    second and third characters are [c1] and [c2] the local [zn] ends as
    18 for "Ar", else 10 for "Ne", else 7 for any other "N", else 6 for
    "C", else 1 for "D", and otherwise keeps the value it had before the
    record. *)
Theorem nuclear_charge_table (f : netcdf_file) (rows : list string) (row : string)
    (i : nat) (c1 c2 : ascii) (zn : option Z) :
  species_rows f = Some rows → rows !! i = Some row →
  String.get 1 row = Some c1 → String.get 2 row = Some c2 →
  nuclear_charge f i zn =
    Ok (if Ascii.eqb c1 "A" && Ascii.eqb c2 "r" then Some 18%Z
        else if Ascii.eqb c1 "N" then (if Ascii.eqb c2 "e" then Some 10%Z else Some 7%Z)
        else if Ascii.eqb c1 "C" then Some 6%Z
        else if Ascii.eqb c1 "D" then Some 1%Z
        else zn).
Proof.
  intros Hf Hi H1 H2. unfold nuclear_charge.
  rewrite !(species_char_is_at f rows row i 1 c1 Hf Hi H1). simpl.
  destruct (Ascii.eqb c1 "D") eqn:ED, (Ascii.eqb c1 "C") eqn:EC,
    (Ascii.eqb c1 "N") eqn:EN, (Ascii.eqb c1 "A") eqn:EA; simpl;
    rewrite ?(species_char_is_at f rows row i 2 c2 Hf Hi H2); simpl;
    destruct (Ascii.eqb c2 "e") eqn:Ee, (Ascii.eqb c2 "r") eqn:Er; simpl;
    ascii_cases.
Qed.

Lemma nuclear_charge_table_witness :
  nuclear_charge (with_species [" Ne+3"] sample_file) 0 (Some 1%Z) = Ok (Some 10%Z)
  ∧ nuclear_charge (with_species [" N+3"] sample_file) 0 (Some 1%Z) = Ok (Some 7%Z).
Proof.
  split.
  - apply (nuclear_charge_table (with_species [" Ne+3"] sample_file)
             [" Ne+3"] " Ne+3" 0 "N" "e" (Some 1%Z)); reflexivity.
  - apply (nuclear_charge_table (with_species [" N+3"] sample_file)
             [" N+3"] " N+3" 0 "N" "+" (Some 1%Z)); reflexivity.
Defined.

(** X3: where the rules read past a record. A file without [species]
    raises [KeyError]; a record index past the rows, or a row of fewer
    than two characters, raises [IndexError]; a row of exactly two
    characters raises [IndexError] when the second is "N" or "A", the only
    cases in which lines 103 and 105 read the third, and is decoded by the
    rules for "C" and "D" otherwise. *)
Theorem nuclear_charge_bounds (f : netcdf_file) (i : nat) (zn : option Z) :
  (species_rows f = None → nuclear_charge f i zn = Err (KeyError (KName "species")))
  ∧ ∀ rows, species_rows f = Some rows →
      (rows !! i = None → nuclear_charge f i zn = Err IndexError)
      ∧ ∀ row, rows !! i = Some row →
          (String.get 1 row = None → nuclear_charge f i zn = Err IndexError)
          ∧ ∀ c1, String.get 1 row = Some c1 → String.get 2 row = None →
              nuclear_charge f i zn =
                if Ascii.eqb c1 "N" || Ascii.eqb c1 "A" then Err IndexError
                else Ok (if Ascii.eqb c1 "C" then Some 6%Z
                         else if Ascii.eqb c1 "D" then Some 1%Z
                         else zn).
Proof.
  split.
  - intros Hf. unfold nuclear_charge, species_char_is. by rewrite Hf.
  - intros rows Hf. split.
    + intros Hi. unfold nuclear_charge, species_char_is. by rewrite Hf, Hi.
    + intros row Hi. split.
      * intros H1. unfold nuclear_charge.
        rewrite !(species_char_is_short f rows row i 1 Hf Hi H1). reflexivity.
      * intros c1 H1 H2. unfold nuclear_charge.
        rewrite !(species_char_is_at f rows row i 1 c1 Hf Hi H1). simpl.
        destruct (Ascii.eqb c1 "D") eqn:ED, (Ascii.eqb c1 "C") eqn:EC,
          (Ascii.eqb c1 "N") eqn:EN, (Ascii.eqb c1 "A") eqn:EA; simpl;
          rewrite ?(species_char_is_short f rows row i 2 Hf Hi H2); simpl;
          ascii_cases.
Qed.

Lemma nuclear_charge_bounds_witness :
  nuclear_charge (with_species [" N"] sample_file) 0 None = Err IndexError
  ∧ nuclear_charge (with_species [" C"] sample_file) 0 None = Ok (Some 6%Z)
  ∧ nuclear_charge (with_species ["C"] sample_file) 0 None = Err IndexError.
Proof.
  split; [| split].
  - destruct (nuclear_charge_bounds (with_species [" N"] sample_file) 0 None)
      as [_ H]. destruct (H [" N"] eq_refl) as [_ H'].
    destruct (H' " N" eq_refl) as [_ H'']. exact (H'' "N"%char eq_refl eq_refl).
  - destruct (nuclear_charge_bounds (with_species [" C"] sample_file) 0 None)
      as [_ H]. destruct (H [" C"] eq_refl) as [_ H'].
    destruct (H' " C" eq_refl) as [_ H'']. exact (H'' "C"%char eq_refl eq_refl).
  - destruct (nuclear_charge_bounds (with_species ["C"] sample_file) 0 None)
      as [_ H]. destruct (H ["C"] eq_refl) as [_ H'].
    destruct (H' "C" eq_refl) as [H'' _]. exact (H'' eq_refl).
Defined.

(** ** What the species loop can produce *)

Lemma nuclear_charge_range (f : netcdf_file) (i : nat) (zn zn' : option Z) :
  nuclear_charge f i zn = Ok zn' →
  zn' = zn ∨ ∃ z, zn' = Some z ∧ z ∈ [1; 6; 7; 10; 18]%Z.
Proof.
  unfold nuclear_charge. intros H.
  inv_bind H. inv_bind H. inv_bind H. inv_bind H. inv_bind H. inv_bind H.
  inv_bind H. injection H as <-.
  repeat match goal with
         | |- context [if ?b then _ else _] => destruct b
         end;
    first [ by left
          | right; eexists; split; [reflexivity |];
            repeat first [ apply list_elem_of_here | apply list_elem_of_further ] ].
Qed.

Lemma popular_species_of_rule (z : Z) (am : Q) (species : Element) :
  z ∈ [1; 6; 7; 10; 18]%Z →
  dict_get _popular_species (z, am) = Some species →
  species ∈ [deuterium; carbon; nitrogen; neon; argon].
Proof.
  intros Hz H.
  repeat (apply elem_of_cons in Hz as [-> | Hz]);
    [.. | by apply elem_of_nil in Hz];
    unfold dict_get, _popular_species, key_eqb in H; simpl in H;
    repeat match type of H with
           | (if ?b then _ else _) = _ => destruct b
           end;
    try discriminate; injection H as <-;
    repeat first [ apply list_elem_of_here | apply list_elem_of_further ].
Qed.

Section SpeciesLoop.

Context (symbol : Element → string).

(** One iteration: it leaves in [zn] a charge that one of the rules
    assigns, and appends one label, made of the symbol of an element the
    rules can reach and of the ionisation read at the index of the
    record. *)
Lemma decode_species_step (f : netcdf_file) (i : nat) (zn zn' : option Z)
    (labels labels' : list string) :
  decode_species symbol f i (zn, labels) = Ok (zn', labels') →
  (zn = None ∨ ∃ z, zn = Some z ∧ z ∈ [1; 6; 7; 10; 18]%Z) →
  (∃ z, zn' = Some z ∧ z ∈ [1; 6; 7; 10; 18]%Z)
  ∧ ∃ za_var za species,
      variable f "za" = Ok za_var ∧ scalar_at za_var i = Ok za
      ∧ species ∈ [deuterium; carbon; nitrogen; neon; argon]
      ∧ labels' = labels ++ [symbol species +:+ py_str (py_int za)].
Proof.
  unfold decode_species. simpl. intros H Hzn.
  inv_bind H. inv_bind H. inv_bind H. inv_bind H. inv_bind H. inv_bind H.
  inv_bind H. injection H as <- <-.
  match goal with Hl : load_local "zn" ?o = Ok ?z |- _ =>
    destruct o as [z' |]; [injection Hl as -> | discriminate Hl] end.
  match goal with Hn : nuclear_charge _ _ _ = Ok _ |- _ =>
    apply nuclear_charge_range in Hn as [Hsame | (z' & Hz' & Hin)] end.
  - destruct Hzn as [-> | (z' & -> & Hin)]; [discriminate |].
    injection Hsame as ->. split; [eauto |].
    do 3 eexists. repeat split; try eassumption.
    match goal with Hd : dict_getitem _ _ = Ok _ |- _ =>
      unfold dict_getitem in Hd;
      destruct (dict_get _ _) eqn:Hget in Hd; [injection Hd as -> | discriminate Hd] end.
    eapply popular_species_of_rule; eassumption.
  - injection Hz' as ->. split; [eauto |].
    do 3 eexists. repeat split; try eassumption.
    match goal with Hd : dict_getitem _ _ = Ok _ |- _ =>
      unfold dict_getitem in Hd;
      destruct (dict_get _ _) eqn:Hget in Hd; [injection Hd as -> | discriminate Hd] end.
    eapply popular_species_of_rule; eassumption.
Qed.

Lemma species_loop_labels (f : netcdf_file) (indices : list nat) (zn zn' : option Z)
    (labels labels' : list string) :
  for_each (decode_species symbol f) indices (zn, labels) = Ok (zn', labels') →
  (zn = None ∨ ∃ z, zn = Some z ∧ z ∈ [1; 6; 7; 10; 18]%Z) →
  ∃ new, labels' = labels ++ new
    ∧ Forall2 (λ i l, ∃ za_var za species,
                 variable f "za" = Ok za_var ∧ scalar_at za_var i = Ok za
                 ∧ species ∈ [deuterium; carbon; nitrogen; neon; argon]
                 ∧ l = symbol species +:+ py_str (py_int za))
              indices new.
Proof.
  revert zn labels. induction indices as [| i indices IH]; intros zn labels H Hzn.
  - injection H as <- <-. exists []. by rewrite app_nil_r.
  - simpl in H. inv_bind H. destruct x as [zn1 labels1].
    match goal with Hd : decode_species _ _ _ _ = Ok _ |- _ =>
      apply decode_species_step in Hd as [Hzn1 (za_var & za & species & ? & ? & ? & ->)];
        [| exact Hzn] end.
    apply IH in H as (new & -> & Hnew); [| by right].
    eexists (_ :: new). split; [by rewrite <- app_assoc |].
    constructor; [| exact Hnew]. eauto 10.
Qed.

(** X4: although the catalog has helium, krypton and xenon, no load ever
    labels a species with them: every label the species loop returns is
    the symbol of deuterium, carbon, nitrogen, neon or argon followed by
    the decimal rendering of an integer. *)
Theorem load_species_reachable_elements (f : netcdf_file) (labels : list string) :
  load_species symbol f = Ok labels →
  Forall (λ l, ∃ species k,
            species ∈ [deuterium; carbon; nitrogen; neon; argon]
            ∧ l = symbol species +:+ py_str k) labels.
Proof.
  unfold load_species. intros H. inv_bind H. inv_bind H. inv_bind H.
  injection H as <-. destruct x1 as [zn' labels'].
  match goal with Hl : for_each _ _ _ = Ok _ |- _ =>
    apply species_loop_labels in Hl as (new & -> & Hnew); [| by left] end.
  simpl. clear -Hnew.
  induction Hnew as [| i l indices new (za_var & za & species & _ & _ & Hin & ->) _ IH];
    constructor; eauto.
Qed.

(** X5: a species list that loads has one label per entry of [am], in the
    order of the records: the label at index [i] ends with the ionisation
    state read from [za] at index [i]. *)
Theorem load_species_one_label_per_record (f : netcdf_file) (labels : list string) :
  load_species symbol f = Ok labels →
  ∃ am_var, variable f "am" = Ok am_var
    ∧ np_len am_var = Ok (length labels)
    ∧ ∀ i l, labels !! i = Some l →
        ∃ za_var za species,
          variable f "za" = Ok za_var ∧ scalar_at za_var i = Ok za
          ∧ l = symbol species +:+ py_str (py_int za).
Proof.
  unfold load_species. intros H. inv_bind H. inv_bind H. inv_bind H.
  injection H as <-. destruct x1 as [zn' labels'].
  match goal with Hl : for_each _ _ _ = Ok _ |- _ =>
    apply species_loop_labels in Hl as (new & -> & Hnew); [| by left] end.
  simpl. eexists. split; [eassumption |].
  apply Forall2_length in Hnew as Hlen. rewrite length_seq in Hlen.
  split; [by rewrite <- Hlen |].
  intros i l Hl.
  destruct (Forall2_lookup_r _ _ _ _ _ Hnew Hl)
    as (j & Hj & za_var & za & species & ? & ? & _ & ->).
  apply lookup_seq in Hj as [-> _]. eauto 10.
Qed.

End SpeciesLoop.

Lemma load_species_reachable_elements_witness :
  Forall (λ l, ∃ species k,
            species ∈ [deuterium; carbon; nitrogen; neon; argon]
            ∧ l = cherab_symbol species +:+ py_str k) ["D0"; "D1"].
Proof.
  apply (load_species_reachable_elements cherab_symbol sample_file).
  vm_compute. reflexivity.
Defined.

Lemma load_species_one_label_per_record_witness :
  ∃ am_var, variable sample_file "am" = Ok am_var
    ∧ np_len am_var = Ok 2
    ∧ ∀ i l, ["D0"; "D1"] !! i = Some l →
        ∃ za_var za species,
          variable sample_file "za" = Ok za_var ∧ scalar_at za_var i = Ok za
          ∧ l = cherab_symbol species +:+ py_str (py_int za).
Proof.
  apply (load_species_one_label_per_record cherab_symbol sample_file ["D0"; "D1"]).
  vm_compute. reflexivity.
Defined.

(** ** What a file must hold to load *)

Lemma variable_Ok_is_Some (f : netcdf_file) (name : string) (a : ndarray) :
  variable f name = Ok a → variables f !! name = Some a.
Proof. unfold variable. destruct (variables f !! name); by intros [= ->]. Qed.

Lemma find_D0_Some_elem (species_list : list string) (k : nat) :
  find_D0 species_list = Some k → "D0" ∈ species_list.
Proof.
  unfold find_D0. destruct (bool_decide ("D0" ∈ species_list)) eqn:E; [| done].
  intros _. by apply bool_decide_eq_true in E.
Qed.

Lemma total_rad_eirene_requires (f : netcdf_file) (vol r : ndarray) :
  total_rad_eirene f vol = Ok r →
  is_Some (variables f !! "b2stel_she_bal")
  ∧ is_Some (variables f !! "eirene_mc_eael_she_bal")
  ∧ is_Some (variables f !! "eirene_mc_papl_sna_bal").
Proof.
  unfold total_rad_eirene. intros H. inv_bind H. inv_bind H.
  destruct (variables f !! "eirene_mc_eael_she_bal") as [eael |].
  - destruct (variables f !! "eirene_mc_papl_sna_bal") as [papl |].
    + apply variable_Ok_is_Some in Hx. eauto.
    + inv_bind H. inv_bind H. inv_bind H. inv_bind H.
      repeat match goal with
             | Hm : mret None = Ok _ |- _ => injection Hm as <-
             | Hl : load_local _ None = Ok _ |- _ => discriminate Hl
             end.
  - inv_bind H. inv_bind H. inv_bind H.
    repeat match goal with
           | Hm : mret None = Ok _ |- _ => injection Hm as <-
           | Hl : load_local _ None = Ok _ |- _ => discriminate Hl
           end.
Qed.

Lemma total_rad_b2_requires (f : netcdf_file) (vol r : ndarray) :
  total_rad_b2 f vol = Ok r →
  is_Some (variables f !! "b2stel_she_bal")
  ∧ is_Some (variables f !! "b2stel_sna_ion_bal").
Proof.
  unfold total_rad_b2. intros H.
  inv_bind H. inv_bind H. inv_bind H. inv_bind H.
  apply variable_Ok_is_Some in Hx, Hx2. eauto.
Qed.

Section LoadRequirements.

Context (Mesh : Type) (SOLPSMesh : ndarray → ndarray → ndarray → result Mesh).
Context (InsideMesh : Type) (inside_outside : Mesh → result InsideMesh).
Context (symbol : Element → string).

Local Abbreviation load_plasma' :=
  (load_plasma Mesh SOLPSMesh InsideMesh inside_outside symbol).
Local Abbreviation load_handle :=
  (load_from_handle Mesh SOLPSMesh InsideMesh inside_outside symbol).

Lemma load_plasma_requires (f : netcdf_file) (p : plasma Mesh InsideMesh) :
  load_plasma' f = Ok p →
  Forall (λ name, is_Some (variables f !! name))
    ["crx"; "cry"; "vol"; "te"; "ne"; "am"; "na"].
Proof.
  unfold load_plasma. intros H.
  inv_bind H. inv_bind H. inv_bind H. inv_bind H. inv_bind H. inv_bind H.
  inv_bind H. inv_bind H. inv_bind H. inv_bind H. inv_bind H. inv_bind H.
  match goal with Hs : load_species _ _ = Ok _ |- _ =>
    unfold load_species in Hs; inv_bind Hs end.
  repeat match goal with
         | Hv : variable _ _ = Ok _ |- _ => apply variable_Ok_is_Some in Hv
         end.
  repeat constructor; eauto.
Qed.

(** X6: a file that loads has the variables crx, cry, vol, te, ne, am, na
    and b2stel_she_bal. If it has dab2 it also has both EIRENE balance
    variables and a species labelled D0; if it has no dab2 it has
    b2stel_sna_ion_bal. *)
Theorem load_requires_variables (f : netcdf_file)
    (sim : SOLPSSimulation Mesh InsideMesh) :
  load_handle f = Ok sim →
  Forall (λ name, is_Some (variables f !! name))
    ["crx"; "cry"; "vol"; "te"; "ne"; "am"; "na"; "b2stel_she_bal"]
  ∧ (is_Some (variables f !! "dab2") →
     is_Some (variables f !! "eirene_mc_eael_she_bal")
     ∧ is_Some (variables f !! "eirene_mc_papl_sna_bal")
     ∧ "D0" ∈ _species_list _ _ sim)
  ∧ (variables f !! "dab2" = None →
     is_Some (variables f !! "b2stel_sna_ion_bal")).
Proof.
  unfold load_from_handle. intros H.
  inv_bind H. inv_bind H. destruct x0 as [sd eirene_run]. inv_bind H.
  injection H as <-. simpl.
  apply load_plasma_requires in Hx as Hreq.
  unfold replace_neutral_density in Hx0.
  destruct (variables f !! "dab2") as [dab2 |] eqn:Hdab2.
  - inv_bind Hx0. inv_bind Hx0. inv_bind Hx0. injection Hx0 as <- <-.
    simpl in Hx1. apply total_rad_eirene_requires in Hx1 as (Hshe & Heael & Hpapl).
    split; [| split; [| done]].
    + apply (Forall_app_2 _ [_; _; _; _; _; _; _] [_]);
        [exact Hreq | by repeat constructor].
    + intros _. split; [done |]. split; [done |].
      destruct (find_D0 (pl_species_list _ _ x)) as [k |] eqn:HD0; [| discriminate].
      by eapply find_D0_Some_elem.
  - injection Hx0 as <- <-. simpl in Hx1.
    apply total_rad_b2_requires in Hx1 as (Hshe & Hsna).
    split; [| split; [by intros [? ?] | done]].
    apply (Forall_app_2 _ [_; _; _; _; _; _; _] [_]);
      [exact Hreq | by repeat constructor].
Qed.

End LoadRequirements.

Lemma load_requires_variables_witness :
  Forall (λ name, is_Some (variables sample_file !! name))
    ["crx"; "cry"; "vol"; "te"; "ne"; "am"; "na"; "b2stel_she_bal"].
Proof.
  destruct (sample_load_from_handle sample_file) as [sim |] eqn:Hload.
  - exact (proj1 (load_requires_variables quad_mesh spec_SOLPSMesh (list Q)
                    spec_inside_outside cherab_symbol sample_file sim Hload)).
  - vm_compute in Hload. discriminate Hload.
Defined.

(** ** The re-arrangement on arrays of any rank *)

(** X7: the two swaps need three axes. On an array of fewer than three
    axes they raise [AxisError]; on one of shape (C, P, R, ...) they give
    shape (P, R, C, ...), the cell (p, r, c, ...) holding the cell
    (c, p, r, ...) of the argument, the axes after the third untouched. *)
Theorem rearrange_any_rank (a : ndarray) :
  (ndim a < 3 → rearrange a = Err AxisError)
  ∧ ∀ C P R rest, shape a = C :: P :: R :: rest →
      ∃ b, rearrange a = Ok b
         ∧ shape b = P :: R :: C :: rest
         ∧ ∀ p r c t, item b (p :: r :: c :: t) = item a (c :: p :: r :: t).
Proof.
  destruct a as [sh f]. unfold ndim. simpl. split.
  - destruct sh as [| x [| y [| z rest]]]; simpl; intros Hlt;
      [reflexivity | reflexivity | reflexivity | lia].
  - intros C P R rest ->. eexists. split; [reflexivity |]. simpl.
    split; reflexivity.
Qed.

Lemma rearrange_any_rank_witness :
  rearrange (ramp [2; 3] 0) = Err AxisError
  ∧ shape <$> rearrange (ramp [1; 2; 2; 3] 0) = Ok [2; 2; 1; 3].
Proof.
  split.
  - apply (proj1 (rearrange_any_rank (ramp [2; 3] 0))). unfold ndim. simpl. lia.
  - destruct (proj2 (rearrange_any_rank (ramp [1; 2; 2; 3] 0)) 1 2 2 [3] eq_refl)
      as (b & -> & Hshape & _). simpl. by rewrite Hshape.
Defined.

(** ** The index of the neutrals *)

Lemma find_D0_scan (l : list string) (n : nat) :
  match foldl (λ D0_indx j, if bool_decide (l !! j = Some "D0") then Some j else D0_indx)
              None (seq 0 n) with
  | None => ∀ j, j < n → l !! j ≠ Some "D0"
  | Some i => i < n ∧ l !! i = Some "D0" ∧ ∀ j, i < j → j < n → l !! j ≠ Some "D0"
  end.
Proof.
  induction n as [| n IH]; [simpl; intros; lia |].
  rewrite seq_S, foldl_app. simpl.
  destruct (bool_decide (l !! n = Some "D0")) eqn:En.
  - apply bool_decide_eq_true in En. split; [lia |]. split; [done |]. intros; lia.
  - apply bool_decide_eq_false in En.
    destruct (foldl _ None (seq 0 n)) as [i |].
    + destruct IH as (Hi & HD0 & Hlater). split; [lia |]. split; [done |].
      intros j Hij Hj. destruct (decide (j = n)) as [-> | Hne]; [done |].
      apply Hlater; lia.
    + intros j Hj. destruct (decide (j = n)) as [-> | Hne]; [done |].
      apply IH. lia.
Qed.

(** X8: the search of lines 126-129 leaves [D0_indx] unassigned exactly
    when no label is "D0", and otherwise assigns it the last index at
    which the label occurs. *)
Theorem find_D0_spec (species_list : list string) :
  (find_D0 species_list = None ↔ "D0" ∉ species_list)
  ∧ ∀ i, find_D0 species_list = Some i ↔
         (species_list !! i = Some "D0"
          ∧ ∀ j, i < j → species_list !! j ≠ Some "D0").
Proof.
  assert (Hsome : ∀ i, find_D0 species_list = Some i →
            species_list !! i = Some "D0"
            ∧ ∀ j, i < j → species_list !! j ≠ Some "D0").
  { intros i. unfold find_D0.
    destruct (bool_decide ("D0" ∈ species_list)); [| done].
    pose proof (find_D0_scan species_list (length species_list)) as Hscan.
    intros Hi. rewrite Hi in Hscan. destruct Hscan as (Hlt & HD0 & Hlater).
    split; [done |]. intros j Hij.
    destruct (decide (j < length species_list)) as [Hj | Hj]; [by apply Hlater |].
    rewrite lookup_ge_None_2 by lia. done. }
  split.
  - split; [| apply find_D0_absent].
    intros Hnone Hin. apply list_elem_of_lookup_1 in Hin as [i Hi].
    revert Hnone. unfold find_D0.
    rewrite bool_decide_eq_true_2 by (by eapply list_elem_of_lookup_2).
    pose proof (find_D0_scan species_list (length species_list)) as Hscan.
    intros Hnone. rewrite Hnone in Hscan.
    apply (Hscan i); [by eapply lookup_lt_Some | done].
  - intros i. split; [apply Hsome |]. intros [Hi Hlater]. by apply find_D0_last.
Qed.

(** ** The test of line 57 *)

Section PathTest.

Context (Mesh : Type) (SOLPSMesh : ndarray → ndarray → ndarray → result Mesh).
Context (InsideMesh : Type) (inside_outside : Mesh → result InsideMesh).
Context (symbol : Element → string).

Local Abbreviation load :=
  (load_solps_from_balance Mesh SOLPSMesh InsideMesh inside_outside symbol).

(** X9: the paths that pass the test of line 57 are the ones that cannot
    be loaded. When [os.path.isdir] answers true the reader is still
    called and the load ends with [IsADirectoryError], no handle opened;
    and every load that returns a simulation is of a path for which it
    answered false. *)
Theorem isdir_paths_never_load (fs : gmap string fs_node) (path : string)
    (debug : bool) (w : world) :
  ((os_path_isdir fs path w).2 = Ok true →
     load fs path debug w =
       ({| trace := (trace w ++ [SysIsDir path]) ++ [SysOpen path];
           open_handles := open_handles w |}, Err IsADirectoryError))
  ∧ ∀ sim, (load fs path debug w).2 = Ok sim →
      (os_path_isdir fs path w).2 = Ok false.
Proof.
  rewrite load_unfold. unfold os_path_isdir. simpl.
  destruct (fs !! path) as [[| [f |]] |]; simpl; split; done.
Qed.

End PathTest.

Lemma isdir_paths_never_load_witness :
  sample_load {[ "run" := Directory ]} "run" initial_world =
    ({| trace := [SysIsDir "run"; SysOpen "run"]; open_handles := [] |},
     Err IsADirectoryError).
Proof.
  apply (proj1 (isdir_paths_never_load quad_mesh spec_SOLPSMesh (list Q)
                  spec_inside_outside cherab_symbol {[ "run" := Directory ]}
                  "run" false initial_world)).
  reflexivity.
Defined.

(** ** The formulas of the radiated power *)

Lemma broadcast_rev_prefix (l t : list nat) :
  broadcast_rev (l ++ t) l = Some (l ++ t).
Proof.
  induction l as [| d l IH]; simpl.
  - by destruct t.
  - rewrite Nat.eqb_refl. simpl. by rewrite IH.
Qed.

Lemma broadcast_shapes_leading (pre sh : list nat) :
  broadcast_shapes (pre ++ sh) sh = Some (pre ++ sh).
Proof.
  unfold broadcast_shapes.
  rewrite reverse_app, broadcast_rev_prefix. simpl.
  by rewrite <- reverse_app, reverse_involutive.
Qed.

(** Two operands of one shape: the operation is applied cell by cell. *)
Lemma elementwise_same_shape (op : Q → Q → Q) (a b : ndarray) :
  shape a = shape b →
  ∃ r, elementwise op a b = Ok r ∧ shape r = shape b
     ∧ ∀ idx, in_bounds idx (shape b) → item r idx = op (item a idx) (item b idx).
Proof.
  intros Hs. unfold elementwise. rewrite Hs.
  pose proof (broadcast_shapes_leading [] (shape b)) as Hb.
  simpl in Hb. rewrite Hb. clear Hb.
  eexists. split; [reflexivity |]. split; [reflexivity |]. simpl.
  intros idx Hidx. by rewrite broadcast_index_in_bounds.
Qed.

(** A first operand with one more, leading, axis: the second operand is
    repeated along it. *)
Lemma elementwise_leading_axis (op : Q → Q → Q) (a b : ndarray) (n : nat) :
  shape a = n :: shape b →
  ∃ r, elementwise op a b = Ok r ∧ shape r = n :: shape b
     ∧ ∀ j idx, j < n → in_bounds idx (shape b) →
         item r (j :: idx) = op (item a (j :: idx)) (item b idx).
Proof.
  intros Hs. unfold elementwise. rewrite Hs.
  pose proof (broadcast_shapes_leading [n] (shape b)) as Hb.
  simpl in Hb. rewrite Hb. clear Hb.
  eexists. split; [reflexivity |]. split; [reflexivity |]. simpl.
  intros j idx Hj Hidx.
  rewrite (broadcast_index_in_bounds (n :: shape b) (j :: idx))
    by (by constructor).
  replace (broadcast_index (shape b) (j :: idx)) with idx; [done |].
  unfold broadcast_index. simpl length.
  rewrite (Forall2_length _ _ _ Hidx).
  replace (S (length (shape b)) - length (shape b)) with 1 by lia.
  simpl drop. symmetry.
  pose proof (broadcast_index_in_bounds _ _ Hidx) as Hb.
  unfold broadcast_index in Hb.
  by rewrite (Forall2_length _ _ _ Hidx), Nat.sub_diag, drop_0 in Hb.
Qed.

Lemma np_sum0_axis0_sum (a s : ndarray) :
  np_sum0 a = Ok s →
  shape s = tail (shape a) ∧ ∀ idx, item s idx = axis0_sum a idx.
Proof.
  unfold np_sum0, axis0_sum. destruct (shape a) as [| n rest]; [done |].
  by intros [= <-].
Qed.

(** X10: the fluid-only formula, cell by cell. When b2stel_she_bal and
    b2stel_sna_ion_bal have the shape of the volume behind a leading
    axis, the branch completes, the result has the shape of the volume,
    and each cell holds |13.6 Q S_sna / vol - S_she / vol|, with S_sna
    and S_she the sums of the two variables over their leading axis. *)
Theorem total_rad_b2_formula (f : netcdf_file) (vol she sna : ndarray) (n m : nat) :
  variable f "b2stel_she_bal" = Ok she →
  variable f "b2stel_sna_ion_bal" = Ok sna →
  shape she = n :: shape vol →
  shape sna = m :: shape vol →
  ∃ r, total_rad_b2 f vol = Ok r
     ∧ shape r = shape vol
     ∧ ∀ idx, in_bounds idx (shape vol) →
         item r idx =
         Qabs (13.6 * Q_elementary * (axis0_sum sna idx / item vol idx)
               - axis0_sum she idx / item vol idx)%Q.
Proof.
  intros Hshe Hsna Hs1 Hs2. unfold total_rad_b2. rewrite Hshe, Hsna. simpl.
  destruct (np_sum0 she) as [s1 |] eqn:E1;
    [| unfold np_sum0 in E1; rewrite Hs1 in E1; discriminate].
  destruct (np_sum0 sna) as [s2 |] eqn:E2;
    [| unfold np_sum0 in E2; rewrite Hs2 in E2; discriminate].
  apply np_sum0_axis0_sum in E1 as [Hsh1 Hit1], E2 as [Hsh2 Hit2].
  rewrite Hs1 in Hsh1. rewrite Hs2 in Hsh2. simpl in Hsh1, Hsh2. simpl.
  destruct (elementwise_same_shape Qdiv s1 vol Hsh1) as (b2_ploss & Eb & Hbs & Hbi).
  destruct (elementwise_same_shape Qdiv s2 vol Hsh2) as (ploss & Ep & Hps & Hpi).
  unfold np_div. rewrite Eb. simpl. rewrite Ep. simpl.
  destruct (elementwise_same_shape Qminus
              (scalar_times (13.6 * Q_elementary)%Q ploss) b2_ploss)
    as (d & Ed & Hds & Hdi); [simpl; congruence |].
  unfold np_sub. rewrite Ed. simpl.
  eexists. split; [reflexivity |]. simpl. split; [congruence |].
  intros idx Hidx.
  rewrite Hdi by (by rewrite Hbs). simpl.
  by rewrite Hpi, Hbi, Hit1, Hit2.
Qed.

Lemma total_rad_b2_formula_witness :
  ∃ r, total_rad_b2 sample_file (full [2; 3] 2%Q) = Ok r
     ∧ shape r = [2; 3]
     ∧ ∀ idx, in_bounds idx [2; 3] →
         item r idx =
         Qabs (Qminus
                 (Qmult (13.6 * Q_elementary)%Q
                    (Qdiv (axis0_sum (ramp [2; 2; 3] (-3)) idx)
                          (item (full [2; 3] 2%Q) idx)))
                 (Qdiv (axis0_sum (ramp [2; 2; 3] (-5)) idx)
                       (item (full [2; 3] 2%Q) idx))).
Proof.
  apply (total_rad_b2_formula sample_file (full [2; 3] 2%Q)
           (ramp [2; 2; 3] (-5)) (ramp [2; 2; 3] (-3)) 2 2); reflexivity.
Defined.

Lemma getitem_1_all_all_Ok (a : ndarray) (c n1 n2 : nat) (rest : list nat) :
  shape a = c :: n1 :: n2 :: rest → 1 < c →
  ∃ r, getitem_1_all_all a = Ok r ∧ shape r = n1 :: n2 :: rest
     ∧ ∀ idx, item r idx = item a (1 :: idx).
Proof.
  intros Hs Hc. unfold getitem_1_all_all. rewrite Hs.
  apply Nat.ltb_lt in Hc. rewrite Hc. eauto.
Qed.

Lemma np_sum0_Ok (a : ndarray) (n : nat) (rest : list nat) :
  shape a = n :: rest →
  ∃ s, np_sum0 a = Ok s ∧ shape s = rest ∧ ∀ idx, item s idx = axis0_sum a idx.
Proof.
  intros Hs. unfold np_sum0, axis0_sum. rewrite Hs. eauto.
Qed.

(** X11: the coupled formula, cell by cell. Line 144 divides
    b2stel_she_bal by the volume without summing its leading axis, so the
    result keeps that axis: when the three variables have the shape of
    the volume behind their leading axes, the branch completes, the
    result has the shape of b2stel_she_bal, and its cell (j, cell) holds
    |she[j, cell] / vol + (S_eael / vol - 13.6 S_papl Q / vol)|, with
    S_eael the sum of eirene_mc_eael_she_bal over its leading axis and
    S_papl that of eirene_mc_papl_sna_bal at index 1 of its second axis. *)
Theorem total_rad_eirene_formula (f : netcdf_file) (vol she eael papl : ndarray)
    (n m k c n1 n2 : nat) (rest : list nat) :
  variable f "b2stel_she_bal" = Ok she →
  variables f !! "eirene_mc_eael_she_bal" = Some eael →
  variables f !! "eirene_mc_papl_sna_bal" = Some papl →
  shape vol = n1 :: n2 :: rest →
  shape she = n :: shape vol →
  shape eael = m :: shape vol →
  shape papl = k :: c :: shape vol →
  1 < c →
  ∃ r, total_rad_eirene f vol = Ok r
     ∧ shape r = n :: shape vol
     ∧ ∀ j idx, j < n → in_bounds idx (shape vol) →
         item r (j :: idx) =
         Qabs (item she (j :: idx) / item vol idx
               + (axis0_sum eael idx / item vol idx
                  - 13.6 * axis0_sum papl (1%nat :: idx) * Q_elementary
                    / item vol idx))%Q.
Proof.
  intros Hshe Heael Hpapl Hvol Hs1 Hs2 Hs3 Hc.
  unfold total_rad_eirene. rewrite Hshe, Heael, Hpapl. simpl.
  destruct (elementwise_leading_axis Qdiv she vol n Hs1)
    as (b2_ploss & Eb & Hbs & Hbi).
  unfold np_div. rewrite Eb. simpl.
  destruct (np_sum0_Ok eael m (shape vol) Hs2) as (s1 & E1 & Hsh1 & Hit1).
  rewrite E1. simpl.
  destruct (elementwise_same_shape Qdiv s1 vol Hsh1) as (ecool & Ee & Hes & Hei).
  rewrite Ee. simpl.
  destruct (np_sum0_Ok papl k (c :: shape vol) Hs3) as (s2 & E2 & Hsh2 & Hit2).
  rewrite E2. simpl. rewrite Hvol in Hsh2.
  destruct (getitem_1_all_all_Ok s2 c n1 n2 rest Hsh2 Hc) as (ch & Ec & Hcs & Hci).
  rewrite Ec. simpl.
  destruct (elementwise_same_shape Qdiv
              (times_scalar (scalar_times 13.6%Q ch) Q_elementary) vol)
    as (ploss & Ep & Hps & Hpi); [simpl; congruence |].
  rewrite Ep. simpl.
  destruct (elementwise_same_shape Qminus ecool ploss) as (d & Ed & Hds & Hdi);
    [congruence |].
  unfold np_sub. rewrite Ed. simpl.
  destruct (elementwise_leading_axis Qplus b2_ploss d n) as (s & Es & Hss & Hsi);
    [congruence |].
  unfold np_add. rewrite Es. simpl.
  eexists. split; [reflexivity |]. simpl. split; [congruence |].
  intros j idx Hj Hidx.
  rewrite Hsi by (by rewrite ?Hds, ?Hps). rewrite Hbi by done.
  rewrite Hdi by (by rewrite Hps). rewrite Hei, Hpi by done. simpl.
  by rewrite Hit1, Hci, Hit2.
Qed.

Lemma total_rad_eirene_formula_witness :
  ∃ r, total_rad_eirene sample_file (full [2; 3] 2%Q) = Ok r
     ∧ shape r = [2; 2; 3]
     ∧ shape <$> total_rad_b2 sample_file (full [2; 3] 2%Q) = Ok [2; 3].
Proof.
  destruct (total_rad_eirene_formula sample_file (full [2; 3] 2%Q)
              (ramp [2; 2; 3] (-5)) (ramp [1; 2; 3] (-4)) (ramp [1; 2; 2; 3] (-7))
              2 1 1 2 2 3 []) as (r & Hr & Hs & _);
    [reflexivity | reflexivity | reflexivity | reflexivity | reflexivity
    | reflexivity | reflexivity | lia |].
  exists r. split; [exact Hr |]. split; [exact Hs |]. vm_compute. reflexivity.
Defined.

(** ** The species density of a loaded simulation *)




Section LoadedDensity.

Context (Mesh : Type) (SOLPSMesh : ndarray → ndarray → ndarray → result Mesh).
Context (InsideMesh : Type) (inside_outside : Mesh → result InsideMesh).
Context (symbol : Element → string).

Local Abbreviation load_handle :=
  (load_from_handle Mesh SOLPSMesh InsideMesh inside_outside symbol).


End LoadedDensity.


(** ** Shapes the replacement of the neutral density rejects *)

(** X13: the errors of line 134 when the file has dab2. A dab2 of fewer
    than three axes raises [IndexError] from the slice on the right-hand
    side, before [D0_indx] is read. With dab2 of shape (m + 1, P, cols)
    and a density of shape (P, R, C): an index of the neutrals at or past
    C raises [IndexError]; and an index below C raises [ValueError]
    unless dab2 has two columns more than the density (cols - 2 = R) or
    exactly three (a single column is left, which numpy repeats). *)
Theorem replace_neutral_density_shape_errors (f : netcdf_file) (dab2 : ndarray) :
  variables f !! "dab2" = Some dab2 →
  (ndim dab2 < 3 →
     ∀ D0_indx sd, replace_neutral_density f D0_indx sd = Err IndexError)
  ∧ ∀ m P cols, shape dab2 = [S m; P; cols] →
      ∀ sd R C k, shape sd = [P; R; C] →
        (C ≤ k → replace_neutral_density f (Some k) sd = Err IndexError)
        ∧ (k < C → cols - 2 ≠ R → cols - 2 ≠ 1 →
           replace_neutral_density f (Some k) sd = Err ValueError).
Proof.
  intros Hdab2. unfold replace_neutral_density. rewrite Hdab2. split.
  - unfold ndim, getitem_0_all_upto_m2. intros Hlt D0_indx sd.
    destruct (shape dab2) as [| n0 [| n1 [| n2 rest]]]; simpl in *;
      [reflexivity | reflexivity | reflexivity | lia].
  - intros m P cols Hs sd R C k Hsd.
    unfold getitem_0_all_upto_m2. rewrite Hs. simpl.
    unfold setitem_all_all_k, ndim. rewrite Hsd. simpl. split.
    + intros Hk. apply Nat.ltb_ge in Hk. by rewrite Hk.
    + intros Hk Hcols Hone. apply Nat.ltb_lt in Hk. rewrite Hk.
      unfold assignable. simpl.
      apply Nat.eqb_neq in Hcols, Hone. by rewrite Hcols, Hone.
Qed.

Lemma replace_neutral_density_shape_errors_witness :
  replace_neutral_density (with_variable "dab2" (ramp [1; 2; 4] 0) sample_file)
    (Some 0) (ramp [2; 3; 2] 0) = Err ValueError
  ∧ replace_neutral_density (with_variable "dab2" (ramp [1; 2; 4] 0) sample_file)
      (Some 2) (ramp [2; 3; 2] 0) = Err IndexError.
Proof.
  destruct (replace_neutral_density_shape_errors
              (with_variable "dab2" (ramp [1; 2; 4] 0) sample_file)
              (ramp [1; 2; 4] 0) eq_refl) as [_ H].
  destruct (H 0 2 4 eq_refl (ramp [2; 3; 2] 0) 3 2 0 eq_refl) as [_ Hvalue].
  destruct (H 0 2 4 eq_refl (ramp [2; 3; 2] 0) 3 2 2 eq_refl) as [Hindex _].
  split; [apply Hvalue; simpl; lia | apply Hindex; lia].
Defined.
